(** * Keybinding resolution engine of [src/input.cpp]

    A shallow embedding of the [input_manager] / [input_context] code of
    Cataclysm-DDA's [input.cpp]: the keycode registry, the binding table
    ([action_contexts]), the context resolver ([get_action_attributes]),
    the loader, the editing operations and the session queries, followed by
    the properties proved about them.

    Conventions.
    - [std::map<K, V>] is a [gmap K V]; [std::set<keymod_t>] is a
      [gset keymod_t]; [std::vector<T>] is a [list T]; [int] is a [Z]
      (the 32-bit range is written out where it matters); [std::string] is
      a [string].
    - A member function that mutates the manager takes the part of the
      state it touches and returns the new one next to its result.
    - A reference returned by the C++ code ([const action_attributes &]) is
      returned by value; the place it points to is always the entry of the
      returned table under the context reported by the [overwrites_default]
      flag. *)

From Stdlib Require Import Ascii String ZArith Lia.
From stdpp Require Import base option gmap strings list.

Local Open Scope string_scope.
Local Open Scope Z_scope.

(** ** Data model *)

Inductive input_event_t :=
  | keyboard_char | keyboard_code | gamepad | mouse | error | timeout.

Inductive keymod_t := ctrl | alt | shift.

Inductive keyboard_mode := keychar | keycode.

#[global] Instance input_event_t_eq_dec : EqDecision input_event_t.
Proof. solve_decision. Defined.

#[global] Instance keymod_t_eq_dec : EqDecision keymod_t.
Proof. solve_decision. Defined.

#[global] Instance keyboard_mode_eq_dec : EqDecision keyboard_mode.
Proof. solve_decision. Defined.

Definition keymod_to_nat (m : keymod_t) : nat :=
  match m with ctrl => 0%nat | alt => 1%nat | shift => 2%nat end.

Definition keymod_of_nat (n : nat) : option keymod_t :=
  match n with
  | 0%nat => Some ctrl
  | 1%nat => Some alt
  | 2%nat => Some shift
  | _ => None
  end.

#[global] Program Instance keymod_t_countable : Countable keymod_t :=
  inj_countable keymod_to_nat keymod_of_nat _.
Next Obligation. by intros []. Qed.

Record point := mk_point { px : Z; py : Z }.

(** Modelled from the spec: [struct input_event] is declared in [input.h],
    outside src.  The spec's data model gives the device family tag, the
    modifier set and the code sequence; [mouse_pos] is the member
    [handle_input] reads.  A default-constructed event has type [error],
    no modifier and an empty sequence. *)
Record input_event := mk_input_event {
  type : input_event_t;
  modifiers : gset keymod_t;
  sequence : list Z;
  mouse_pos : point
}.

Definition input_event_default : input_event :=
  {| type := error; modifiers := ∅; sequence := []; mouse_pos := mk_point 0 0 |}.

(** Modelled from the spec: [input_event::operator==] is declared in
    [input.h], outside src: "two events are equal iff type, modifier set,
    and code sequence are all equal, position-sensitive". *)
Definition input_event_eqb (a b : input_event) : bool :=
  bool_decide (type a = type b)
  && bool_decide (modifiers a = modifiers b)
  && bool_decide (sequence a = sequence b).

(** Modelled from the spec: the [translation] class ([translations.h]) is
    outside src.  A translation carries its raw text and whether the text
    is to be looked up in the message catalogue; [translation()] is empty,
    [no_translation s] wraps [s] verbatim, and [empty()] tests the raw
    text. *)
Record translation := mk_translation {
  raw : string;
  needs_translation : bool
}.

Definition translation_default : translation :=
  {| raw := ""; needs_translation := false |}.

Definition no_translation (s : string) : translation :=
  {| raw := s; needs_translation := false |}.

Definition to_translation (s : string) : translation :=
  {| raw := s; needs_translation := true |}.

Definition translation_empty (t : translation) : bool :=
  bool_decide (raw t = "").

(** [struct action_attributes] ([input.h]): a default-constructed entry is
    not user-created, has an empty name and no event. *)
Record action_attributes := mk_action_attributes {
  is_user_created : bool;
  name : translation;
  input_events : list input_event
}.

Definition action_attributes_default : action_attributes :=
  {| is_user_created := false; name := translation_default; input_events := [] |}.

Definition set_name (n : translation) (a : action_attributes) : action_attributes :=
  {| is_user_created := is_user_created a; name := n; input_events := input_events a |}.

Definition set_is_user_created (b : bool) (a : action_attributes) : action_attributes :=
  {| is_user_created := b; name := name a; input_events := input_events a |}.

Definition set_input_events (l : list input_event) (a : action_attributes)
  : action_attributes :=
  {| is_user_created := is_user_created a; name := name a; input_events := l |}.

(** [input_manager::t_actions] and [input_manager::t_action_contexts]. *)
Abbreviation t_actions := (gmap string action_attributes).
Abbreviation t_action_contexts := (gmap string (gmap string action_attributes)).

Definition default_context_id : string := "default".

(** [std::map::operator[]]: the value under [k], inserted as [dflt] when
    the key is absent. *)
Definition map_index `{Countable K} {V} (dflt : V) (m : gmap K V) (k : K)
  : V * gmap K V :=
  match m !! k with
  | Some v => (v, m)
  | None => (dflt, <[k := dflt]> m)
  end.

(** The entry of [action_id] in context [context], when both exist. *)
Definition lookup_action (ac : t_action_contexts) (context action_id : string)
  : option action_attributes :=
  ac !! context ≫= λ actions, actions !! action_id.

(** ** Context resolver *)

(** [input_manager::get_default_action_name]. *)
Definition get_default_action_name (ac : t_action_contexts) (action_id : string)
  : translation :=
  match ac !! default_context_id with
  | None => no_translation action_id
  | Some default_action_context =>
      match default_action_context !! action_id with
      | Some default_action => name default_action
      | None => no_translation action_id
      end
  end.

(** [input_manager::get_action_attributes].  The result is the entry, the
    value written to [*overwrites_default], and the table afterwards.
    In [default_action_context[action_id].name = get_default_action_name(
    action_id )] the right operand is evaluated before the entry is
    inserted (the sequencing of an assignment since C++17), so the name is
    computed on the table that does not hold the entry yet. *)
Definition get_action_attributes
    (ac : t_action_contexts) (action_id context : string)
  : action_attributes * bool * t_action_contexts :=
  let local :=
    if decide (context ≠ default_context_id)
    then lookup_action ac context action_id
    else None in
  match local with
  | Some action => (action, true, ac)
  | None =>
      let '(default_action_context, ac1) := map_index ∅ ac default_context_id in
      match default_action_context !! action_id with
      | Some default_action => (default_action, false, ac1)
      | None =>
          let new_action :=
            set_name (get_default_action_name ac1 action_id)
                     action_attributes_default in
          (new_action, false,
           <[default_context_id := <[action_id := new_action]> default_action_context]> ac1)
      end
  end.

(** [input_manager::get_input_for_action]. *)
Definition get_input_for_action
    (ac : t_action_contexts) (action_descriptor context : string)
  : list input_event * bool * t_action_contexts :=
  let '(attributes, overwrites_default, ac') :=
    get_action_attributes ac action_descriptor context in
  (input_events attributes, overwrites_default, ac').

(** ** Editing operations of the manager *)

(** [input_manager::get_or_create_event_list].  The entry is inserted
    default-constructed first ([actions[action_descriptor]]), then named by
    [get_default_action_name] on the table that already holds it, then
    marked user-created.  The result is the event list of the entry and the
    table; the C++ reference points into the entry of [context]. *)
Definition get_or_create_event_list
    (ac : t_action_contexts) (action_descriptor context : string)
  : list input_event * t_action_contexts :=
  let '(actions, ac1) := map_index ∅ ac context in
  match actions !! action_descriptor with
  | Some action => (input_events action, ac1)
  | None =>
      let ac2 :=
        <[context := <[action_descriptor := action_attributes_default]> actions]> ac1 in
      let attributes :=
        set_is_user_created true
          (set_name (get_default_action_name ac2 action_descriptor)
                    action_attributes_default) in
      (input_events attributes,
       <[context := <[action_descriptor := attributes]> actions]> ac2)
  end.

(** [input_manager::remove_input_for_action]. *)
Definition remove_input_for_action
    (ac : t_action_contexts) (action_descriptor context : string)
  : t_action_contexts :=
  match ac !! context with
  | None => ac
  | Some actions =>
      match actions !! action_descriptor with
      | None => ac
      | Some action =>
          if is_user_created action then
            <[context := delete action_descriptor actions]> ac
          else
            match input_events action with
            | [] => <[context := delete action_descriptor actions]> ac
            | _ :: _ =>
                <[context := <[action_descriptor := set_input_events [] action]> actions]> ac
            end
      end
  end.

(** Whether the list holds an event equal to [event] (the [operator==]
    scans of [add_input_for_action], [action_uses_input] and
    [input_to_action]). *)
Definition has_event (events : list input_event) (event : input_event) : bool :=
  existsb (λ events_a, input_event_eqb events_a event) events.

(** [input_manager::add_input_for_action]: the [push_back] goes through
    the reference into the entry of [context]. *)
Definition add_input_for_action
    (ac : t_action_contexts) (action_descriptor context : string)
    (event : input_event)
  : t_action_contexts :=
  let '(events, ac1) := get_or_create_event_list ac action_descriptor context in
  if has_event events event then ac1
  else
    alter (alter (set_input_events (events ++ [event])) action_descriptor)
          context ac1.

(** ** Input session ([input_context]) *)

Record input_context := mk_input_context {
  registered_actions : list string;
  category : string;
  action_name_overrides : gmap string translation;
  registered_any_input : bool;
  handling_coordinate_input : bool;
  next_action : input_event;
  coordinate : point;
  coordinate_input_received : bool;
  ctx_timeout : Z;
  preferred_keyboard_mode : keyboard_mode
}.

Definition CATA_ERROR : string := "ERROR".
Definition ANY_INPUT : string := "ANY_INPUT".
Definition HELP_KEYBINDINGS : string := "HELP_KEYBINDINGS".
Definition COORDINATE : string := "COORDINATE".
Definition TIMEOUT : string := "TIMEOUT".

(** The constructor [input_context( category, mode )]: nothing registered,
    no timeout. *)
Definition new_input_context (cat : string) (mode : keyboard_mode) : input_context :=
  {| registered_actions := [];
     category := cat;
     action_name_overrides := ∅;
     registered_any_input := false;
     handling_coordinate_input := false;
     next_action := input_event_default;
     coordinate := mk_point 0 0;
     coordinate_input_received := false;
     ctx_timeout := -1;
     preferred_keyboard_mode := mode |}.

(** [input_context::register_action( action_descriptor, name )]. *)
Definition register_action
    (ctxt : input_context) (action_descriptor : string) (nm : translation)
  : input_context :=
  {| registered_actions := registered_actions ctxt ++ [action_descriptor];
     category := category ctxt;
     action_name_overrides :=
       if translation_empty nm then action_name_overrides ctxt
       else <[action_descriptor := nm]> (action_name_overrides ctxt);
     registered_any_input :=
       if decide (action_descriptor = "ANY_INPUT") then true
       else registered_any_input ctxt;
     handling_coordinate_input :=
       if decide (action_descriptor = "ANY_INPUT") then handling_coordinate_input ctxt
       else if decide (action_descriptor = "COORDINATE") then true
       else handling_coordinate_input ctxt;
     next_action := next_action ctxt;
     coordinate := coordinate ctxt;
     coordinate_input_received := coordinate_input_received ctxt;
     ctx_timeout := ctx_timeout ctxt;
     preferred_keyboard_mode := preferred_keyboard_mode ctxt |}.

(** The loop of [input_context::input_to_action] over the registered
    actions still to be scanned. *)
Fixpoint input_to_action_scan
    (cat : string) (inp : input_event) (actions : list string)
    (ac : t_action_contexts)
  : string * t_action_contexts :=
  match actions with
  | [] => (CATA_ERROR, ac)
  | action :: rest =>
      let '(check_inp, _, ac') := get_input_for_action ac action cat in
      if has_event check_inp inp then (action, ac')
      else input_to_action_scan cat inp rest ac'
  end.

(** [input_context::input_to_action]. *)
Definition input_to_action
    (ctxt : input_context) (ac : t_action_contexts) (inp : input_event)
  : string * t_action_contexts :=
  input_to_action_scan (category ctxt) inp (registered_actions ctxt) ac.

(** [input_context::action_uses_input]. *)
Definition action_uses_input
    (ctxt : input_context) (ac : t_action_contexts)
    (action_id : string) (event : input_event)
  : bool * t_action_contexts :=
  let '(attributes, _, ac') := get_action_attributes ac action_id (category ctxt) in
  (has_event (input_events attributes) event, ac').

(** [input_context::clear_conflicting_keybindings].  Both references are
    into the one table, so with [category = "default"] the two erasures hit
    the same entry. *)
Definition erase_event
    (event : input_event) (registered_action context : string)
    (ac : t_action_contexts)
  : t_action_contexts :=
  alter (alter (λ a, set_input_events
                       (filter (λ e, input_event_eqb e event = false) (input_events a)) a)
               registered_action)
        context ac.

Definition clear_conflicting_keybindings
    (ctxt : input_context) (ac : t_action_contexts) (event : input_event)
  : t_action_contexts :=
  let ac1 := (map_index ∅ ac default_context_id).2 in
  let ac2 := (map_index ∅ ac1 (category ctxt)).2 in
  fold_left
    (λ ac registered_action,
       erase_event event registered_action (category ctxt)
         (erase_event event registered_action default_context_id ac))
    (registered_actions ctxt) ac2.

(** *** External collaborators of the session queries *)

(** [translation::translated()] looks the raw text up in the message
    catalogue; [pgettext] and [_] ([gettext]) are the catalogue lookups
    with and without a message context; [string_format] is applied to a
    translated format and one integer. *)
Class Localization := {
  translated : translation → string;
  pgettext : string → string → string;
  gettext : string → string;
  string_format : string → Z → string
}.

(** Modelled from the spec: [enumerate_as_string] ([output.h]) is outside
    src.  The spec has the conflict query answer the ordered list of the
    display names; the functor [get_conflicts] hands over answers
    [std::string()] for an action that does not conflict, so the
    enumeration is made of the answers that are not empty, in order.
    [enumerate_values] joins them into the one string presented. *)
Class Enumeration := {
  enumerate_values : list string → string
}.

(** [input_context::get_action_name]. *)
Definition get_action_name `{Localization}
    (ctxt : input_context) (ac : t_action_contexts) (action_id : string)
  : string * t_action_contexts :=
  match action_name_overrides ctxt !! action_id with
  | Some action_name_override => (translated action_name_override, ac)
  | None =>
      let '(attributes, _, ac1) :=
        get_action_attributes ac action_id (category ctxt) in
      if negb (translation_empty (name attributes)) then
        (translated (name attributes), ac1)
      else
        let '(default_attributes, _, ac2) :=
          get_action_attributes ac1 action_id default_context_id in
        if negb (translation_empty (name default_attributes)) then
          (translated (name default_attributes), ac2)
        else (action_id, ac2)
  end.

(** The values [enumerate_as_string] collects for [get_conflicts]: the
    functor runs on every registered action in order and empty answers are
    dropped. *)
Fixpoint get_conflicts_values `{Localization}
    (ctxt : input_context) (event : input_event) (actions : list string)
    (ac : t_action_contexts)
  : list string * t_action_contexts :=
  match actions with
  | [] => ([], ac)
  | action :: rest =>
      let '(uses, ac1) := action_uses_input ctxt ac action event in
      let '(str, ac2) :=
        if uses then get_action_name ctxt ac1 action else ("", ac1) in
      let '(values, ac3) := get_conflicts_values ctxt event rest ac2 in
      (if decide (str = "") then values else str :: values, ac3)
  end.

(** [input_context::get_conflicts]. *)
Definition get_conflicts `{Localization} `{Enumeration}
    (ctxt : input_context) (ac : t_action_contexts) (event : input_event)
  : string * t_action_contexts :=
  let '(values, ac') :=
    get_conflicts_values ctxt event (registered_actions ctxt) ac in
  (enumerate_values values, ac').

(** ** Keycode registry *)

(** The process-wide [input_manager]: the binding table, the four pairs of
    keycode tables and the input timeout. *)
Record input_manager := mk_input_manager {
  action_contexts : t_action_contexts;
  keyboard_char_keycode_to_keyname : gmap Z string;
  keyboard_char_keyname_to_keycode : gmap string Z;
  keyboard_code_keycode_to_keyname : gmap Z string;
  keyboard_code_keyname_to_keycode : gmap string Z;
  gamepad_keycode_to_keyname : gmap Z string;
  gamepad_keyname_to_keycode : gmap string Z;
  mouse_keycode_to_keyname : gmap Z string;
  mouse_keyname_to_keycode : gmap string Z;
  input_timeout : Z
}.

(** The manager before [init]: every table empty. *)
Definition input_manager_empty : input_manager :=
  mk_input_manager ∅ ∅ ∅ ∅ ∅ ∅ ∅ ∅ ∅ 0.

Definition set_action_contexts (ac : t_action_contexts) (im : input_manager)
  : input_manager :=
  mk_input_manager ac
    (keyboard_char_keycode_to_keyname im) (keyboard_char_keyname_to_keycode im)
    (keyboard_code_keycode_to_keyname im) (keyboard_code_keyname_to_keycode im)
    (gamepad_keycode_to_keyname im) (gamepad_keyname_to_keycode im)
    (mouse_keycode_to_keyname im) (mouse_keyname_to_keycode im)
    (input_timeout im).

(** [input_manager::add_keyboard_char_keycode_pair]. *)
Definition add_keyboard_char_keycode_pair (ch : Z) (nm : string) (im : input_manager)
  : input_manager :=
  mk_input_manager (action_contexts im)
    (<[ch := nm]> (keyboard_char_keycode_to_keyname im))
    (<[nm := ch]> (keyboard_char_keyname_to_keycode im))
    (keyboard_code_keycode_to_keyname im) (keyboard_code_keyname_to_keycode im)
    (gamepad_keycode_to_keyname im) (gamepad_keyname_to_keycode im)
    (mouse_keycode_to_keyname im) (mouse_keyname_to_keycode im)
    (input_timeout im).

(** [input_manager::add_keyboard_code_keycode_pair]. *)
Definition add_keyboard_code_keycode_pair (ch : Z) (nm : string) (im : input_manager)
  : input_manager :=
  mk_input_manager (action_contexts im)
    (keyboard_char_keycode_to_keyname im) (keyboard_char_keyname_to_keycode im)
    (<[ch := nm]> (keyboard_code_keycode_to_keyname im))
    (<[nm := ch]> (keyboard_code_keyname_to_keycode im))
    (gamepad_keycode_to_keyname im) (gamepad_keyname_to_keycode im)
    (mouse_keycode_to_keyname im) (mouse_keyname_to_keycode im)
    (input_timeout im).

(** [input_manager::add_gamepad_keycode_pair]. *)
Definition add_gamepad_keycode_pair (ch : Z) (nm : string) (im : input_manager)
  : input_manager :=
  mk_input_manager (action_contexts im)
    (keyboard_char_keycode_to_keyname im) (keyboard_char_keyname_to_keycode im)
    (keyboard_code_keycode_to_keyname im) (keyboard_code_keyname_to_keycode im)
    (<[ch := nm]> (gamepad_keycode_to_keyname im))
    (<[nm := ch]> (gamepad_keyname_to_keycode im))
    (mouse_keycode_to_keyname im) (mouse_keyname_to_keycode im)
    (input_timeout im).

(** [input_manager::add_mouse_keycode_pair]. *)
Definition add_mouse_keycode_pair (ch : Z) (nm : string) (im : input_manager)
  : input_manager :=
  mk_input_manager (action_contexts im)
    (keyboard_char_keycode_to_keyname im) (keyboard_char_keyname_to_keycode im)
    (keyboard_code_keycode_to_keyname im) (keyboard_code_keyname_to_keycode im)
    (gamepad_keycode_to_keyname im) (gamepad_keyname_to_keycode im)
    (<[ch := nm]> (mouse_keycode_to_keyname im))
    (<[nm := ch]> (mouse_keyname_to_keycode im))
    (input_timeout im).

(** *** Integers as text *)

Definition INT_MIN : Z := -2147483648.
Definition INT_MAX : Z := 2147483647.

Definition digit_char (d : Z) : ascii := ascii_of_N (Z.to_N (48 + d)).

Definition digit_value (c : ascii) : option Z :=
  let n := Z.of_N (N_of_ascii c) in
  if (48 <=? n) && (n <=? 57) then Some (n - 48) else None.

(** The decimal digits of a non-negative [n] in front of [acc]; [fuel]
    bounds the number of digits. *)
Fixpoint uint_to_str (fuel : nat) (n : Z) (acc : string) : string :=
  match fuel with
  | O => acc
  | S fuel' =>
      let acc' := String (digit_char (n mod 10)) acc in
      if n <? 10 then acc' else uint_to_str fuel' (n / 10) acc'
  end.

Definition digits_fuel (n : Z) : nat := S (Z.to_nat (Z.log2 n)).

(** [int_to_str]: [operator<<] of an [int] in the classic locale, a minus
    sign for a negative number and the decimal digits. *)
Definition int_to_str (number : Z) : string :=
  if number <? 0 then
    String "-" (uint_to_str (digits_fuel (- number)) (- number) "")
  else uint_to_str (digits_fuel number) number "".

(** [isspace] in the classic locale. *)
Definition is_space (c : ascii) : bool :=
  let n := Z.of_N (N_of_ascii c) in
  (n =? 32) || ((9 <=? n) && (n <=? 13)).

Fixpoint skip_ws (s : string) : string :=
  match s with
  | String c rest => if is_space c then skip_ws rest else s
  | EmptyString => s
  end.

(** The longest run of decimal digits at the head of [s], accumulated on
    [acc]; [None] while no digit has been read. *)
Fixpoint read_digits (s : string) (acc : option Z) : option Z :=
  match s with
  | String c rest =>
      match digit_value c with
      | Some d => read_digits rest (Some (10 * default 0 acc + d))
      | None => acc
      end
  | EmptyString => acc
  end.

(** [str_to_int]: [operator>>] into an [int] in the classic locale.
    Leading white space is skipped, an optional sign and the digits that
    follow are read; when no digit is found the extraction fails and
    stores 0, and a value outside the [int] range is stored as the nearest
    bound. *)
Definition str_to_int (number : string) : Z :=
  let s := skip_ws number in
  let '(negative, digits) :=
    match s with
    | String "-" rest => (true, rest)
    | String "+" rest => (false, rest)
    | _ => (false, s)
    end in
  match read_digits digits None with
  | None => 0
  | Some v =>
      let v := if negative then - v else v in
      Z.max INT_MIN (Z.min INT_MAX v)
  end.

(** *** Key constants *)

(** The key constants [init_keycode_mapping] names: the curses [KEY_*]
    codes, the members of [namespace keycode], the [JOY_*] and the mouse
    codes. *)
Inductive key_id :=
  | KEY_BTAB | KEY_UP | KEY_DOWN | KEY_LEFT | KEY_RIGHT | KEY_NPAGE
  | KEY_PPAGE | KEY_ESCAPE | KEY_BACKSPACE | KEY_HOME | KEY_BREAK | KEY_END
  | keycode_backspace | keycode_tab | keycode_return_ | keycode_escape
  | keycode_space
  | keycode_f1 | keycode_f2 | keycode_f3 | keycode_f4 | keycode_f5
  | keycode_f6 | keycode_f7 | keycode_f8 | keycode_f9 | keycode_f10
  | keycode_f11 | keycode_f12
  | keycode_ppage | keycode_home | keycode_end | keycode_npage
  | keycode_right | keycode_left | keycode_down | keycode_up
  | keycode_kp_divide | keycode_kp_multiply | keycode_kp_minus
  | keycode_kp_plus | keycode_kp_enter
  | keycode_kp_1 | keycode_kp_2 | keycode_kp_3 | keycode_kp_4
  | keycode_kp_5 | keycode_kp_6 | keycode_kp_7 | keycode_kp_8
  | keycode_kp_9 | keycode_kp_0 | keycode_kp_period
  | keycode_f13 | keycode_f14 | keycode_f15 | keycode_f16 | keycode_f17
  | keycode_f18 | keycode_f19 | keycode_f20 | keycode_f21 | keycode_f22
  | keycode_f23 | keycode_f24
  | JOY_LEFT | JOY_RIGHT | JOY_UP | JOY_DOWN
  | JOY_LEFTUP | JOY_LEFTDOWN | JOY_RIGHTUP | JOY_RIGHTDOWN
  | JOY_0 | JOY_1 | JOY_2 | JOY_3 | JOY_4 | JOY_5 | JOY_6 | JOY_7
  | MOUSE_BUTTON_LEFT | MOUSE_BUTTON_RIGHT | SCROLLWHEEL_UP
  | SCROLLWHEEL_DOWN | MOUSE_MOVE.

(** The numeric values of the constants and the function-key macros are
    declared in [input.h], outside src; the registry is built for any
    assignment of them. *)
Class KeyCodes := {
  key_value : key_id → Z;
  KEY_F : Z → Z;
  F_KEY_NUM_BEG : Z;
  F_KEY_NUM_END : Z;
  IS_F_KEY : Z → bool;
  F_KEY_NUM : Z → Z
}.

Definition char_key_beg : Z := 32.
Definition char_key_end : Z := 126.

(** [translate_marker_context] only marks its text for the message
    extraction and evaluates to the text. *)
Definition translate_marker_context (context text : string) : string := text.

(** [std::string name( 1, c )]. *)
Definition char_name (c : Z) : string := String (ascii_of_N (Z.to_N c)) "".

(** [string_format( "F%d", i )]. *)
Definition format_F (i : Z) : string := String "F" (int_to_str i).

(** The pairs [init_keycode_mapping] registers for the character keyboard
    after the printable range. *)
Definition keyboard_char_named_keys `{KeyCodes} : list (Z * string) :=
  [ (9, translate_marker_context "key name" "TAB");
    (key_value KEY_BTAB, translate_marker_context "key name" "BACKTAB");
    (32, translate_marker_context "key name" "SPACE");
    (key_value KEY_UP, translate_marker_context "key name" "UP");
    (key_value KEY_DOWN, translate_marker_context "key name" "DOWN");
    (key_value KEY_LEFT, translate_marker_context "key name" "LEFT");
    (key_value KEY_RIGHT, translate_marker_context "key name" "RIGHT");
    (key_value KEY_NPAGE, translate_marker_context "key name" "NPAGE");
    (key_value KEY_PPAGE, translate_marker_context "key name" "PPAGE");
    (key_value KEY_ESCAPE, translate_marker_context "key name" "ESC");
    (key_value KEY_BACKSPACE, translate_marker_context "key name" "BACKSPACE");
    (key_value KEY_HOME, translate_marker_context "key name" "HOME");
    (key_value KEY_BREAK, translate_marker_context "key name" "BREAK");
    (key_value KEY_END, translate_marker_context "key name" "END");
    (10, translate_marker_context "key name" "RETURN") ].

(** The static table [keyboard_code_keycode_pair]. *)
Definition keyboard_code_keycode_pair `{KeyCodes} : list (Z * string) :=
  [ (key_value keycode_backspace, translate_marker_context "key name" "BACKSPACE");
    (key_value keycode_tab, translate_marker_context "key name" "TAB");
    (key_value keycode_return_, translate_marker_context "key name" "RETURN");
    (key_value keycode_escape, translate_marker_context "key name" "ESC");
    (key_value keycode_space, translate_marker_context "key name" "SPACE");
    (key_value keycode_f1, translate_marker_context "key name" "F1");
    (key_value keycode_f2, translate_marker_context "key name" "F2");
    (key_value keycode_f3, translate_marker_context "key name" "F3");
    (key_value keycode_f4, translate_marker_context "key name" "F4");
    (key_value keycode_f5, translate_marker_context "key name" "F5");
    (key_value keycode_f6, translate_marker_context "key name" "F6");
    (key_value keycode_f7, translate_marker_context "key name" "F7");
    (key_value keycode_f8, translate_marker_context "key name" "F8");
    (key_value keycode_f9, translate_marker_context "key name" "F9");
    (key_value keycode_f10, translate_marker_context "key name" "F10");
    (key_value keycode_f11, translate_marker_context "key name" "F11");
    (key_value keycode_f12, translate_marker_context "key name" "F12");
    (key_value keycode_ppage, translate_marker_context "key name" "PPAGE");
    (key_value keycode_home, translate_marker_context "key name" "HOME");
    (key_value keycode_end, translate_marker_context "key name" "END");
    (key_value keycode_npage, translate_marker_context "key name" "NPAGE");
    (key_value keycode_right, translate_marker_context "key name" "RIGHT");
    (key_value keycode_left, translate_marker_context "key name" "LEFT");
    (key_value keycode_down, translate_marker_context "key name" "DOWN");
    (key_value keycode_up, translate_marker_context "key name" "UP");
    (key_value keycode_kp_divide, translate_marker_context "key name" "KEYPAD_DIVIDE");
    (key_value keycode_kp_multiply, translate_marker_context "key name" "KEYPAD_MULTIPLY");
    (key_value keycode_kp_minus, translate_marker_context "key name" "KEYPAD_MINUS");
    (key_value keycode_kp_plus, translate_marker_context "key name" "KEYPAD_PLUS");
    (key_value keycode_kp_enter, translate_marker_context "key name" "KEYPAD_ENTER");
    (key_value keycode_kp_1, translate_marker_context "key name" "KEYPAD_1");
    (key_value keycode_kp_2, translate_marker_context "key name" "KEYPAD_2");
    (key_value keycode_kp_3, translate_marker_context "key name" "KEYPAD_3");
    (key_value keycode_kp_4, translate_marker_context "key name" "KEYPAD_4");
    (key_value keycode_kp_5, translate_marker_context "key name" "KEYPAD_5");
    (key_value keycode_kp_6, translate_marker_context "key name" "KEYPAD_6");
    (key_value keycode_kp_7, translate_marker_context "key name" "KEYPAD_7");
    (key_value keycode_kp_8, translate_marker_context "key name" "KEYPAD_8");
    (key_value keycode_kp_9, translate_marker_context "key name" "KEYPAD_9");
    (key_value keycode_kp_0, translate_marker_context "key name" "KEYPAD_0");
    (key_value keycode_kp_period, translate_marker_context "key name" "KEYPAD_PERIOD");
    (key_value keycode_f13, translate_marker_context "key name" "F13");
    (key_value keycode_f14, translate_marker_context "key name" "F14");
    (key_value keycode_f15, translate_marker_context "key name" "F15");
    (key_value keycode_f16, translate_marker_context "key name" "F16");
    (key_value keycode_f17, translate_marker_context "key name" "F17");
    (key_value keycode_f18, translate_marker_context "key name" "F18");
    (key_value keycode_f19, translate_marker_context "key name" "F19");
    (key_value keycode_f20, translate_marker_context "key name" "F20");
    (key_value keycode_f21, translate_marker_context "key name" "F21");
    (key_value keycode_f22, translate_marker_context "key name" "F22");
    (key_value keycode_f23, translate_marker_context "key name" "F23");
    (key_value keycode_f24, translate_marker_context "key name" "F24") ].

(** The gamepad and mouse pairs, in the order of the calls. *)
Definition gamepad_keys `{KeyCodes} : list (Z * string) :=
  [ (key_value JOY_LEFT, translate_marker_context "key name" "JOY_LEFT");
    (key_value JOY_RIGHT, translate_marker_context "key name" "JOY_RIGHT");
    (key_value JOY_UP, translate_marker_context "key name" "JOY_UP");
    (key_value JOY_DOWN, translate_marker_context "key name" "JOY_DOWN");
    (key_value JOY_LEFTUP, translate_marker_context "key name" "JOY_LEFTUP");
    (key_value JOY_LEFTDOWN, translate_marker_context "key name" "JOY_LEFTDOWN");
    (key_value JOY_RIGHTUP, translate_marker_context "key name" "JOY_RIGHTUP");
    (key_value JOY_RIGHTDOWN, translate_marker_context "key name" "JOY_RIGHTDOWN");
    (key_value JOY_0, translate_marker_context "key name" "JOY_0");
    (key_value JOY_1, translate_marker_context "key name" "JOY_1");
    (key_value JOY_2, translate_marker_context "key name" "JOY_2");
    (key_value JOY_3, translate_marker_context "key name" "JOY_3");
    (key_value JOY_4, translate_marker_context "key name" "JOY_4");
    (key_value JOY_5, translate_marker_context "key name" "JOY_5");
    (key_value JOY_6, translate_marker_context "key name" "JOY_6");
    (key_value JOY_7, translate_marker_context "key name" "JOY_7") ].

Definition mouse_keys `{KeyCodes} : list (Z * string) :=
  [ (key_value MOUSE_BUTTON_LEFT, translate_marker_context "key name" "MOUSE_LEFT");
    (key_value MOUSE_BUTTON_RIGHT, translate_marker_context "key name" "MOUSE_RIGHT");
    (key_value SCROLLWHEEL_UP, translate_marker_context "key name" "SCROLL_UP");
    (key_value SCROLLWHEEL_DOWN, translate_marker_context "key name" "SCROLL_DOWN");
    (key_value MOUSE_MOVE, translate_marker_context "key name" "MOUSE_MOVE") ].

(** A run of calls of one [add_*_keycode_pair] member, first pair first. *)
Definition add_pairs
    (add : Z → string → input_manager → input_manager)
    (pairs : list (Z * string)) (im : input_manager)
  : input_manager :=
  fold_left (λ im p, add p.1 p.2 im) pairs im.

(** [input_manager::init_keycode_mapping]. *)
Definition init_keycode_mapping `{KeyCodes} (im : input_manager) : input_manager :=
  (* for( char c = char_key_beg; c <= char_key_end; c++ ) *)
  let im :=
    fold_left
      (λ im c,
         add_keyboard_code_keycode_pair c (char_name c)
           (add_keyboard_char_keycode_pair c (char_name c) im))
      (seqZ char_key_beg (char_key_end - char_key_beg + 1)) im in
  let im := add_pairs add_keyboard_char_keycode_pair keyboard_char_named_keys im in
  (* for( int i = F_KEY_NUM_BEG; i <= F_KEY_NUM_END; i++ ) *)
  let im :=
    fold_left
      (λ im i, add_keyboard_char_keycode_pair (KEY_F i) (format_F i) im)
      (seqZ F_KEY_NUM_BEG (F_KEY_NUM_END - F_KEY_NUM_BEG + 1)) im in
  let im := add_pairs add_keyboard_code_keycode_pair keyboard_code_keycode_pair im in
  let im := add_pairs add_gamepad_keycode_pair gamepad_keys im in
  add_pairs add_mouse_keycode_pair mouse_keys im.

(** The table [get_keycode] selects for a device family. *)
Definition keyname_to_keycode_map (im : input_manager) (inp_type : input_event_t)
  : option (gmap string Z) :=
  match inp_type with
  | keyboard_char => Some (keyboard_char_keyname_to_keycode im)
  | keyboard_code => Some (keyboard_code_keyname_to_keycode im)
  | gamepad => Some (gamepad_keyname_to_keycode im)
  | mouse => Some (mouse_keyname_to_keycode im)
  | _ => None
  end.

(** The table [get_keyname] selects for a device family. *)
Definition keycode_to_keyname_map (im : input_manager) (inp_type : input_event_t)
  : option (gmap Z string) :=
  match inp_type with
  | keyboard_char => Some (keyboard_char_keycode_to_keyname im)
  | keyboard_code => Some (keyboard_code_keycode_to_keyname im)
  | gamepad => Some (gamepad_keycode_to_keyname im)
  | mouse => Some (mouse_keycode_to_keyname im)
  | _ => None
  end.

(** [name.compare( 0, 8, "UNKNOWN_" ) == 0], with the rest of the name. *)
Fixpoint strip_prefix (p s : string) : option string :=
  match p with
  | EmptyString => Some s
  | String a p' =>
      match s with
      | String b s' => if decide (a = b) then strip_prefix p' s' else None
      | EmptyString => None
      end
  end.

(** [input_manager::get_keycode]. *)
Definition get_keycode (im : input_manager) (inp_type : input_event_t) (nm : string)
  : Z :=
  match keyname_to_keycode_map im inp_type ≫= λ map, map !! nm with
  | Some it_second => it_second
  | None =>
      match strip_prefix "UNKNOWN_" nm with
      | Some number => str_to_int number
      | None => 0
      end
  end.

(** [input_manager::get_keyname]. *)
Definition get_keyname `{KeyCodes} `{Localization}
    (im : input_manager) (ch : Z) (inp_type : input_event_t) (portable : bool)
  : string :=
  match keycode_to_keyname_map im inp_type ≫= λ map, map !! ch with
  | Some it_second =>
      let translated_name :=
        if portable then it_second else pgettext "key name" it_second in
      match inp_type with
      | keyboard_char =>
          if IS_F_KEY ch then
            if portable then it_second
            else string_format (pgettext "function key name" "F%d") (F_KEY_NUM ch)
          else if (char_key_beg <=? ch) && (ch <=? char_key_end)
                  && negb (ch =? 32) then it_second
          else translated_name
      | keyboard_code =>
          if (char_key_beg <=? ch) && (ch <? char_key_end)
             && negb (ch =? 32) then it_second
          else translated_name
      | _ => translated_name
      end
  | None =>
      if portable then "UNKNOWN_" ++ int_to_str ch
      else string_format (gettext "unknown key %ld") ch
  end.

(** ** Binding store: load and save *)

(** The structured document the JSON reader hands to [load]: one object
    per action, each with its list of [bindings] objects.  The member
    ["key"] is an array of names, one name, or missing. *)
Inductive json_key :=
  | key_array (keys : list string)
  | key_string (k : string)
  | key_missing.

Record json_keybinding := mk_json_keybinding {
  j_input_method : string;
  j_mod : option (list string);
  j_key : json_key
}.

Record json_action := mk_json_action {
  j_type : option string;
  j_id : string;
  j_category : option string;
  j_name : option string;
  j_version : option Z;
  j_is_user_created : option bool;
  j_bindings : list json_keybinding
}.

Definition current_keybinding_version : Z := 1.

Definition with_type (t : input_event_t) (e : input_event) : input_event :=
  {| type := t; modifiers := modifiers e; sequence := sequence e;
     mouse_pos := mouse_pos e |}.

(** [new_event.modifiers.emplace( mod )]. *)
Definition emplace_modifier (m : keymod_t) (e : input_event) : input_event :=
  {| type := type e; modifiers := {[m]} ∪ modifiers e; sequence := sequence e;
     mouse_pos := mouse_pos e |}.

(** [new_event.sequence.push_back( code )]. *)
Definition push_back_code (code : Z) (e : input_event) : input_event :=
  {| type := type e; modifiers := modifiers e; sequence := sequence e ++ [code];
     mouse_pos := mouse_pos e |}.

(** The events one [bindings] object starts from; [None] is the error
    "unknown input_method". *)
Definition new_events_for (input_method : string) : option (list input_event) :=
  if decide (input_method = "keyboard_any") then
    Some [with_type keyboard_char input_event_default;
          with_type keyboard_code input_event_default]
  else if decide (input_method = "keyboard_char" ∨ input_method = "keyboard") then
    Some [with_type keyboard_char input_event_default]
  else if decide (input_method = "keyboard_code") then
    Some [with_type keyboard_code input_event_default]
  else if decide (input_method = "gamepad") then
    Some [with_type gamepad input_event_default]
  else if decide (input_method = "mouse") then
    Some [with_type mouse input_event_default]
  else None.

(** [None] is the error "unknown modifier name". *)
Definition modifier_of_name (str : string) : option keymod_t :=
  if decide (str = "ctrl") then Some ctrl
  else if decide (str = "alt") then Some alt
  else if decide (str = "shift") then Some shift
  else None.

Fixpoint read_mod (vals : list string) (new_events : list input_event)
  : option (list input_event) :=
  match vals with
  | [] => Some new_events
  | str :: rest =>
      match modifier_of_name str with
      | Some m => read_mod rest (map (emplace_modifier m) new_events)
      | None => None
      end
  end.

Definition push_key (im : input_manager) (line : string)
    (new_events : list input_event) : list input_event :=
  map (λ new_event, push_back_code (get_keycode im (type new_event) line) new_event)
      new_events.

(** The body of the loop over [bindings] for one object; [None] when the
    reader throws. *)
Definition read_keybinding (im : input_manager) (keybinding : json_keybinding)
  : option (list input_event) :=
  new_events ← new_events_for (j_input_method keybinding);
  new_events ←
    match j_mod keybinding with
    | Some vals => read_mod vals new_events
    | None => Some new_events
    end;
  match j_key keybinding with
  | key_array keys => Some (fold_left (λ evs line, push_key im line evs) keys new_events)
  | key_string k => Some (push_key im k new_events)
  | key_missing => None
  end.

Fixpoint read_bindings (im : input_manager) (bindings : list json_keybinding)
    (events : list input_event) : option (list input_event) :=
  match bindings with
  | [] => Some events
  | keybinding :: rest =>
      match read_keybinding im keybinding with
      | Some new_events => read_bindings im rest (events ++ new_events)
      | None => None
      end
  end.

(** The body of the loop of [input_manager::load] for one object of the
    array.  [None] stands for a [JsonError] thrown by the reader, which
    [init] turns into a fatal error. *)
Definition load_action
    (im : input_manager) (is_user_preferences : bool) (action : json_action)
  : option input_manager :=
  let version :=
    if is_user_preferences then default 0 (j_version action)
    else current_keybinding_version in
  if decide (default "keybinding" (j_type action) ≠ "keybinding") then Some im
  else
    let action_id := j_id action in
    let context := default default_context_id (j_category action) in
    let '(actions, ac) := map_index ∅ (action_contexts im) context in
    let actions :=
      match j_name action with
      | Some n =>
          if is_user_preferences then actions
          else
            let '(a, actions') :=
              map_index action_attributes_default actions action_id in
            <[action_id := set_name (to_translation n) a]> actions'
      | None => actions
      end in
    match read_bindings im (j_bindings action) [] with
    | None => None
    | Some events =>
        if negb is_user_preferences
           || negb (bool_decide (events = []))
           || bool_decide (context = default_context_id)
           || bool_decide (is_Some (actions !! action_id))
        then
          let '(attributes, actions') :=
            map_index action_attributes_default actions action_id in
          let events :=
            if is_user_preferences && (version =? 0) then
              (events ++ filter (λ evt, type evt = keyboard_code)
                                (input_events attributes))%list
            else events in
          let attributes := set_input_events events attributes in
          let attributes :=
            match j_is_user_created action with
            | Some b => set_is_user_created b attributes
            | None => attributes
            end in
          Some (set_action_contexts
                  (<[context := <[action_id := attributes]> actions']> ac) im)
        else Some (set_action_contexts (<[context := actions]> ac) im)
    end.

Fixpoint load_actions
    (im : input_manager) (is_user_preferences : bool) (actions : list json_action)
  : option input_manager :=
  match actions with
  | [] => Some im
  | action :: rest =>
      match load_action im is_user_preferences action with
      | Some im' => load_actions im' is_user_preferences rest
      | None => None
      end
  end.

(** [input_manager::load]; [file] is [None] when the file cannot be read. *)
Definition load
    (im : input_manager) (file : option (list json_action))
    (is_user_preferences : bool)
  : option input_manager :=
  match file with
  | None => if decide (action_contexts im = ∅) then None else Some im
  | Some actions => load_actions im is_user_preferences actions
  end.

Definition modifier_name (m : keymod_t) : string :=
  match m with ctrl => "ctrl" | alt => "alt" | shift => "shift" end.

(** One object of the ["bindings"] array written by [save]; [None] is the
    [std::runtime_error] for an event type that cannot be saved. *)
Definition save_event `{KeyCodes} `{Localization}
    (im : input_manager) (event : input_event) : option json_keybinding :=
  input_method ←
    match type event with
    | keyboard_char => Some "keyboard_char"
    | keyboard_code => Some "keyboard_code"
    | gamepad => Some "gamepad"
    | mouse => Some "mouse"
    | _ => None
    end;
  Some {| j_input_method := input_method;
          j_mod := Some (modifier_name <$>
                           filter (λ m, m ∈ modifiers event) [ctrl; alt; shift]);
          j_key := key_array ((λ code, get_keyname im code (type event) true)
                                <$> sequence event) |}.

Definition save_action `{KeyCodes} `{Localization}
    (im : input_manager) (context action_id : string) (attributes : action_attributes)
  : option json_action :=
  bindings ← mapM (save_event im) (input_events attributes);
  Some {| j_type := None;
          j_id := action_id;
          j_category := Some context;
          j_name := None;
          j_version := Some current_keybinding_version;
          j_is_user_created :=
            if is_user_created attributes then Some true else None;
          j_bindings := bindings |}.

(** [input_manager::save]: the array written to the user keybindings
    file, one object for every action of every context.  The objects come
    in the order [map_to_list] walks the two maps, which need not be the
    key order of [std::map]. *)
Definition save `{KeyCodes} `{Localization} (im : input_manager)
  : option (list json_action) :=
  (λ objects, concat objects) <$>
    mapM (λ a, mapM (λ action, save_action im a.1 action.1 action.2)
                    (map_to_list a.2))
         (map_to_list (action_contexts im)).

(** ** The blocking read-and-resolve loop *)

(** Modelled from the spec: [input_manager::get_timeout], [set_timeout]
    and [reset_timeout] are defined outside src; the manager keeps one
    timeout value, and the negative value -1 disables the timeout. *)
Definition get_timeout (im : input_manager) : Z := input_timeout im.

Definition set_timeout (t : Z) (im : input_manager) : input_manager :=
  mk_input_manager (action_contexts im)
    (keyboard_char_keycode_to_keyname im) (keyboard_char_keyname_to_keycode im)
    (keyboard_code_keycode_to_keyname im) (keyboard_code_keyname_to_keycode im)
    (gamepad_keycode_to_keyname im) (gamepad_keyname_to_keycode im)
    (mouse_keycode_to_keyname im) (mouse_keyname_to_keycode im)
    t.

Definition reset_timeout (im : input_manager) : input_manager := set_timeout (-1) im.

(** [input_context::display_menu], the interactive keybindings editor: it
    reads further events from the pump and may change the manager in any
    way before it returns. *)
Class Editor := {
  display_menu :
    input_context → input_manager → list input_event →
    input_manager * list input_event
}.

Definition set_next_action (e : input_event) (ctxt : input_context) : input_context :=
  mk_input_context (registered_actions ctxt) (category ctxt)
    (action_name_overrides ctxt) (registered_any_input ctxt)
    (handling_coordinate_input ctxt) e (coordinate ctxt)
    (coordinate_input_received ctxt) (ctx_timeout ctxt)
    (preferred_keyboard_mode ctxt).

Definition set_coordinate_input (received : bool) (p : point) (ctxt : input_context)
  : input_context :=
  mk_input_context (registered_actions ctxt) (category ctxt)
    (action_name_overrides ctxt) (registered_any_input ctxt)
    (handling_coordinate_input ctxt) (next_action ctxt) p
    received (ctx_timeout ctxt) (preferred_keyboard_mode ctxt).

(** What a call of [handle_input] hands back: the action, the session,
    the manager, the events the pump has not delivered yet, and the
    manager's timeout in force at each of the call's own
    [get_input_event]. *)
Record handled := mk_handled {
  h_result : string;
  h_context : input_context;
  h_manager : input_manager;
  h_pending : list input_event;
  h_waits : list Z
}.

(** The [while( true )] loop of [input_context::handle_input].  The event
    pump is the list [pending] of the events [get_input_event] will
    deliver, a [timeout] event where a wait times out; when the list runs
    out the wait never ends and the loop does not return ([None]). *)
Fixpoint handle_input_loop `{Editor}
    (ctxt : input_context) (timeout_arg : Z) (im : input_manager)
    (pending : list input_event) (waits : list Z)
  : option handled :=
  match pending with
  | [] => None
  | ev :: pending' =>
      let waits := (waits ++ [get_timeout im])%list in
      let ctxt := set_next_action ev ctxt in
      if decide (type ev = timeout) then
        Some (mk_handled TIMEOUT ctxt im pending' waits)
      else
        let '(action, ac) := input_to_action ctxt (action_contexts im) ev in
        let im := set_action_contexts ac im in
        if decide (action = "HELP_KEYBINDINGS") then
          let im := reset_timeout im in
          let '(im, pending'') := display_menu ctxt im pending' in
          let im := set_timeout timeout_arg im in
          Some (mk_handled HELP_KEYBINDINGS ctxt im pending'' waits)
        else if decide (type ev = mouse
                        ∧ handling_coordinate_input ctxt = false
                        ∧ action = CATA_ERROR) then
          handle_input_loop ctxt timeout_arg im pending' waits
        else
          let ctxt :=
            if decide (type ev = mouse) then
              set_coordinate_input true (mouse_pos ev) ctxt
            else set_coordinate_input false (coordinate ctxt) ctxt in
          if decide (action ≠ CATA_ERROR) then
            Some (mk_handled action ctxt im pending' waits)
          else if registered_any_input ctxt then
            Some (mk_handled ANY_INPUT ctxt im pending' waits)
          else handle_input_loop ctxt timeout_arg im pending' waits
  end.

(** [input_context::handle_input( const int timeout )]. *)
Definition handle_input `{Editor}
    (ctxt : input_context) (timeout_arg : Z) (im : input_manager)
    (pending : list input_event)
  : option handled :=
  let old_timeout := get_timeout im in
  let im := if 0 <=? timeout_arg then set_timeout timeout_arg im else im in
  let ctxt := set_next_action (with_type error (next_action ctxt)) ctxt in
  match handle_input_loop ctxt timeout_arg im pending [] with
  | Some h =>
      Some (mk_handled (h_result h) (h_context h)
              (set_timeout old_timeout (h_manager h)) (h_pending h) (h_waits h))
  | None => None
  end.

(** [input_context::handle_input()]. *)
Definition handle_input_default `{Editor}
    (ctxt : input_context) (im : input_manager) (pending : list input_event)
  : option handled :=
  handle_input ctxt (ctx_timeout ctxt) im pending.

(** * Definitions used in the statements and proofs *)

Local Open Scope list_scope.

(** ** Reading the resolver off the table *)

(** The entry [get_action_attributes] creates for an action that has no
    global entry. *)
Definition materialized (action_id : string) : action_attributes :=
  set_name (no_translation action_id) action_attributes_default.

(** The value part of [get_action_attributes]: the entry and the flag,
    read off the table without changing it. *)
Definition resolve (ac : t_action_contexts) (action_id context : string)
  : action_attributes * bool :=
  match (if decide (context ≠ default_context_id)
         then lookup_action ac context action_id else None) with
  | Some action => (action, true)
  | None =>
      (default (materialized action_id)
               (lookup_action ac default_context_id action_id), false)
  end.

(** [ac'] is [ac] with some missing global entries materialized. *)
Definition extends (ac ac' : t_action_contexts) : Prop :=
  ∀ c a,
    lookup_action ac' c a = lookup_action ac c a
    ∨ (c = default_context_id
       ∧ lookup_action ac c a = None
       ∧ lookup_action ac' c a = Some (materialized a)).

(** Whether the bindings [action] resolves to in context [cat] hold
    [event]. *)
Definition uses (ac : t_action_contexts) (cat : string) (event : input_event)
    (action : string) : bool :=
  has_event (input_events (resolve ac action cat).1) event.



(** ** Reading the loader off the record *)

(** The entry of the record's action once [load_action] has read the
    member ["name"] (shipped files only); [old] is the entry before. *)
Definition named_entry (u : bool) (r : json_action) (old : option action_attributes)
  : option action_attributes :=
  match j_name r with
  | Some n =>
      if u then old
      else Some (set_name (to_translation n) (default action_attributes_default old))
  | None => old
  end.

(** The condition under which [load_action] applies the record. *)
Definition record_applied (u : bool) (r : json_action) (events : list input_event)
    (old : option action_attributes) : bool :=
  negb u
  || negb (bool_decide (events = []))
  || bool_decide (default default_context_id (j_category r) = default_context_id)
  || bool_decide (is_Some (named_entry u r old)).

(** The entry an applied record leaves. *)
Definition applied_entry (u : bool) (r : json_action) (events : list input_event)
    (old : option action_attributes) : action_attributes :=
  let attributes := default action_attributes_default (named_entry u r old) in
  let events :=
    if u && (default 0 (j_version r) =? 0) then
      events ++ filter (λ evt, type evt = keyboard_code) (input_events attributes)
    else events in
  let attributes := set_input_events events attributes in
  match j_is_user_created r with
  | Some b => set_is_user_created b attributes
  | None => attributes
  end.

(** The event types [save] can write. *)
Definition saveable (evt : input_event) : Prop :=
  type evt = keyboard_char ∨ type evt = keyboard_code
  ∨ type evt = gamepad ∨ type evt = mouse.

(** ** Registry invariants *)

(** Reading an integer text back without the [int] bounds. *)
Definition decode_int (s : string) : Z :=
  match s with
  | String "-" rest => - default 0 (read_digits rest None)
  | _ => default 0 (read_digits s None)
  end.











(** ** Sample data

    A sample assignment of the external parts and a small binding table,
    used to evaluate the definitions on concrete inputs. *)

Definition sample_keycodes : KeyCodes :=
  {| key_value := λ k,
       match k with
       | KEY_BTAB => 353 | KEY_UP => 259 | KEY_DOWN => 258 | KEY_LEFT => 260
       | KEY_RIGHT => 261 | KEY_NPAGE => 338 | KEY_PPAGE => 339
       | KEY_ESCAPE => 27 | KEY_BACKSPACE => 263 | KEY_HOME => 262
       | KEY_BREAK => 257 | KEY_END => 360
       | keycode_backspace => 8 | keycode_tab => 9 | keycode_return_ => 13
       | keycode_escape => 27 | keycode_space => 32
       | keycode_f1 => 1073741882 | keycode_f2 => 1073741883
       | keycode_f3 => 1073741884 | keycode_f4 => 1073741885
       | keycode_f5 => 1073741886 | keycode_f6 => 1073741887
       | keycode_f7 => 1073741888 | keycode_f8 => 1073741889
       | keycode_f9 => 1073741890 | keycode_f10 => 1073741891
       | keycode_f11 => 1073741892 | keycode_f12 => 1073741893
       | keycode_ppage => 1073741899 | keycode_home => 1073741898
       | keycode_end => 1073741901 | keycode_npage => 1073741902
       | keycode_right => 1073741903 | keycode_left => 1073741904
       | keycode_down => 1073741905 | keycode_up => 1073741906
       | keycode_kp_divide => 1073741908 | keycode_kp_multiply => 1073741909
       | keycode_kp_minus => 1073741910 | keycode_kp_plus => 1073741911
       | keycode_kp_enter => 1073741912
       | keycode_kp_1 => 1073741913 | keycode_kp_2 => 1073741914
       | keycode_kp_3 => 1073741915 | keycode_kp_4 => 1073741916
       | keycode_kp_5 => 1073741917 | keycode_kp_6 => 1073741918
       | keycode_kp_7 => 1073741919 | keycode_kp_8 => 1073741920
       | keycode_kp_9 => 1073741921 | keycode_kp_0 => 1073741922
       | keycode_kp_period => 1073741923
       | keycode_f13 => 1073741928 | keycode_f14 => 1073741929
       | keycode_f15 => 1073741930 | keycode_f16 => 1073741931
       | keycode_f17 => 1073741932 | keycode_f18 => 1073741933
       | keycode_f19 => 1073741934 | keycode_f20 => 1073741935
       | keycode_f21 => 1073741936 | keycode_f22 => 1073741937
       | keycode_f23 => 1073741938 | keycode_f24 => 1073741939
       | JOY_LEFT => 257 | JOY_RIGHT => 258 | JOY_UP => 259 | JOY_DOWN => 260
       | JOY_RIGHTUP => 261 | JOY_RIGHTDOWN => 262
       | JOY_LEFTUP => 263 | JOY_LEFTDOWN => 264
       | JOY_0 => 0 | JOY_1 => 1 | JOY_2 => 2 | JOY_3 => 3
       | JOY_4 => 4 | JOY_5 => 5 | JOY_6 => 6 | JOY_7 => 7
       | MOUSE_BUTTON_LEFT => 265 | MOUSE_BUTTON_RIGHT => 266
       | SCROLLWHEEL_UP => 267 | SCROLLWHEEL_DOWN => 268 | MOUSE_MOVE => 269
       end;
     KEY_F := λ n, 264 + n;
     F_KEY_NUM_BEG := 0;
     F_KEY_NUM_END := 63;
     IS_F_KEY := λ key, (264 <=? key) && (key <=? 327);
     F_KEY_NUM := λ key, key - 264 |}.

(** A catalogue without translations. *)
Definition sample_localization : Localization :=
  {| translated := raw;
     pgettext := λ _ text, text;
     gettext := λ text, text;
     string_format := λ format n, (format ++ int_to_str n)%string |}.

Definition sample_enumeration : Enumeration :=
  {| enumerate_values := String.concat ", " |}.

(** An editor session that returns with another timeout set. *)
Definition sample_editor : Editor :=
  {| display_menu := λ _ im pending, (set_timeout 555 im, pending) |}.

(** [input_event( mod, s, t )]. *)
Definition input_event_of (mod_ : gset keymod_t) (s : Z) (t : input_event_t)
  : input_event :=
  {| type := t; modifiers := mod_; sequence := [s]; mouse_pos := mk_point 0 0 |}.

Definition key_q : input_event := input_event_of ∅ 113 keyboard_char.
Definition keycode_q : input_event := input_event_of ∅ 113 keyboard_code.
Definition key_w : input_event := input_event_of ∅ 119 keyboard_char.
Definition key_x : input_event := input_event_of ∅ 120 keyboard_char.
Definition key_f : input_event := input_event_of ∅ 102 keyboard_char.
Definition key_up : input_event := input_event_of ∅ 259 keyboard_char.
Definition key_help : input_event := input_event_of ∅ 63 keyboard_char.
Definition wait_over : input_event :=
  {| type := timeout; modifiers := ∅; sequence := []; mouse_pos := mk_point 0 0 |}.

Definition shipped (nm : string) (events : list input_event) : action_attributes :=
  {| is_user_created := false; name := to_translation nm; input_events := events |}.

(** Global bindings for five actions, a ["vehicle"] context that overrides
    ["UP"] and holds a user-created override of ["FOO"]. *)
Definition sample_table : t_action_contexts :=
  {[ "default" :=
       {[ "UP" := shipped "Move up" [key_up];
          "QUIT" := shipped "Quit" [key_q; keycode_q];
          "FOO" := shipped "Foo" [key_x];
          "BAR" := shipped "Bar" [key_x];
          "HELP_KEYBINDINGS" := shipped "Keybindings" [key_help] ]};
     "vehicle" :=
       {[ "UP" := shipped "Accelerate" [key_w];
          "FOO" := {| is_user_created := true;
                      name := to_translation "Foo";
                      input_events := [key_f] |} ]} ]}.

Definition sample_manager : input_manager :=
  set_timeout 100
    (set_action_contexts sample_table
       (@init_keycode_mapping sample_keycodes input_manager_empty)).

(** A session of a screen without bindings of its own. *)
Definition foo_bar_session : input_context :=
  register_action
    (register_action (new_input_context "menu" keychar) "FOO" translation_default)
    "BAR" translation_default.

Definition help_session : input_context :=
  register_action foo_bar_session "HELP_KEYBINDINGS" translation_default.


(** A version-0 user record that binds ["QUIT"] to the character [Q]. *)
Definition quit_record : json_action :=
  {| j_type := None; j_id := "QUIT"; j_category := None; j_name := None;
     j_version := None; j_is_user_created := None;
     j_bindings := [ {| j_input_method := "keyboard"; j_mod := None;
                        j_key := key_string "Q" |} ] |}.

(** A user record without bindings for a context the table does not have. *)
Definition stale_record : json_action :=
  {| j_type := None; j_id := "FOO"; j_category := Some "crafting"; j_name := None;
     j_version := Some 1; j_is_user_created := None; j_bindings := [] |}.

(** A user record written by [save] for a user-created entry. *)
Definition user_created_record : json_action :=
  {| j_type := None; j_id := "BAZ"; j_category := Some "vehicle"; j_name := None;
     j_version := Some 1; j_is_user_created := Some true;
     j_bindings := [ {| j_input_method := "keyboard_char"; j_mod := Some [];
                        j_key := key_array ["b"] |} ] |}.


(** * Further functions of [input.cpp] *)

(** ** Build and platform switches *)

(** The preprocessor symbols the file tests, the answer of the SDL
    [gamepad_available] (used when [TILES] or [_WIN32] is defined), and
    whether plain [char] is signed. *)
Class BuildFlags := {
  TILES : bool;
  ANDROID : bool;
  WIN32 : bool;
  sdl_gamepad_available : bool;
  char_is_signed : bool
}.

(** [is_mouse_enabled]. *)
Definition is_mouse_enabled `{BuildFlags} : bool :=
  if WIN32 && negb TILES then false else true.

(** [is_keycode_mode_supported]. *)
Definition is_keycode_mode_supported `{BuildFlags} : bool :=
  if TILES && negb ANDROID then true else false.

(** [gamepad_available]: the definition of this file when neither [TILES]
    nor [_WIN32] is defined, the SDL one otherwise. *)
Definition gamepad_available `{BuildFlags} : bool :=
  if negb (TILES || WIN32) then false else sdl_gamepad_available.

(** [input_context::is_event_type_enabled]. *)
Definition is_event_type_enabled `{BuildFlags}
    (ctxt : input_context) (t : input_event_t) : bool :=
  match t with
  | error => false
  | timeout => true
  | keyboard_char =>
      bool_decide (preferred_keyboard_mode ctxt = keychar)
      || negb is_keycode_mode_supported
  | keyboard_code =>
      bool_decide (preferred_keyboard_mode ctxt = keycode)
      && is_keycode_mode_supported
  | gamepad => gamepad_available
  | mouse => true
  end.

(** ** [get_input_string_from_file] *)

(** [getline( fin, ret )]: the characters before the first line feed. *)
Fixpoint getline (content : string) : string :=
  match content with
  | String c rest => if Ascii.eqb c "010" then "" else String c (getline rest)
  | EmptyString => ""
  end.

(** [ret.erase( 0, n )]. *)
Fixpoint erase_front (n : nat) (ret : string) : string :=
  match n, ret with
  | S n', String _ rest => erase_front n' rest
  | _, _ => ret
  end.

Definition is_line_end (c : ascii) : bool :=
  Ascii.eqb c "013" || Ascii.eqb c "010".

(** The loop [while( !ret.empty() && ( ret.back() == '\r' || ret.back()
    == '\n' ) ) ret.erase( ret.size() - 1, 1 )]: a character is erased
    when all that follows it has been erased and it is a carriage return
    or a line feed. *)
Fixpoint erase_line_end (ret : string) : string :=
  match ret with
  | String c rest =>
      match erase_line_end rest with
      | EmptyString => if is_line_end c then "" else String c ""
      | rest' => String c rest'
      end
  | EmptyString => ""
  end.

(** [get_input_string_from_file]; [file] is [None] when the file cannot be
    read, and the lambda is then not called. *)
Definition get_input_string_from_file (file : option string) : string :=
  match file with
  | None => ""
  | Some content =>
      let ret := getline content in
      let ret :=
        match ret with
        | String c _ => if Ascii.eqb c "239" then erase_front 3 ret else ret
        | EmptyString => ret
        end in
      erase_line_end ret
  end.

(** ** [rotate_direction_cw] *)

Definition rotate_direction_vec : list Z := [1; 2; 5; 0; 4; 8; 3; 6; 7].

(** [rotate_direction_cw]: the new [(dx, dy)]; [None] when the index into
    [rotate_direction_vec] is out of its bounds.  The index is not
    negative when the array is read, so [%] and [/] are those of [Z]. *)
Definition rotate_direction_cw (dx dy : Z) : option (Z * Z) :=
  let dir_num := (dy + 1) * 3 + dx + 1 in
  if (0 <=? dir_num) && (dir_num <? 9) then
    match rotate_direction_vec !! Z.to_nat dir_num with
    | Some dir_num => Some (dir_num mod 3 - 1, dir_num / 3 - 1)
    | None => None
    end
  else None.

(** ** Hotkeys of a session *)

(** The [int] a [char] is promoted to. *)
Definition char_to_int `{BuildFlags} (c : ascii) : Z :=
  let n := Z.of_N (N_of_ascii c) in
  if char_is_signed && (128 <=? n) then n - 256 else n.

(** [ContainsPredicate<std::vector<int>, char>::operator()]. *)
Definition ContainsPredicate `{BuildFlags} (container : list Z) (c : ascii) : bool :=
  bool_decide (char_to_int c ∈ container).

(** [s.erase( std::remove_if( s.begin(), s.end(), p ), s.end() )]. *)
Fixpoint erase_remove_if (p : ascii → bool) (s : string) : string :=
  match s with
  | String c rest =>
      if p c then erase_remove_if p rest else String c (erase_remove_if p rest)
  | EmptyString => ""
  end.

(** The inner loop of [get_available_single_char_hotkeys] over the events
    of one action. *)
Definition erase_bound_keys `{BuildFlags}
    (events : list input_event) (requested_keys : string) : string :=
  fold_left
    (λ requested_keys events_event,
       if bool_decide (type events_event = keyboard_char)
          && bool_decide (modifiers events_event = ∅)
       then erase_remove_if (ContainsPredicate (sequence events_event)) requested_keys
       else requested_keys)
    events requested_keys.

(** The outer loop over the registered actions still to be scanned. *)
Fixpoint available_hotkeys_scan `{BuildFlags}
    (cat : string) (actions : list string) (requested_keys : string)
    (ac : t_action_contexts)
  : string * t_action_contexts :=
  match actions with
  | [] => (requested_keys, ac)
  | registered_action :: rest =>
      let '(events, _, ac') := get_input_for_action ac registered_action cat in
      available_hotkeys_scan cat rest (erase_bound_keys events requested_keys) ac'
  end.

(** [input_context::get_available_single_char_hotkeys]. *)
Definition get_available_single_char_hotkeys `{BuildFlags}
    (ctxt : input_context) (ac : t_action_contexts) (requested_keys : string)
  : string * t_action_contexts :=
  available_hotkeys_scan (category ctxt) (registered_actions ctxt) requested_keys ac.

(** ** [wait_for_any_key] *)

(** [input_manager::wait_for_any_key]: the events the pump still holds
    when the function returns; [None] when the pump runs out first and the
    wait never ends. *)
Fixpoint wait_for_any_key (pending : list input_event) : option (list input_event) :=
  match pending with
  | [] => None
  | evt :: pending' =>
      match type evt with
      | keyboard_char =>
          match sequence evt with
          | [] => wait_for_any_key pending'
          | _ :: _ => Some pending'
          end
      | keyboard_code => Some pending'
      | error => Some pending'
      | _ => wait_for_any_key pending'
      end
  end.

(** ** Definitions used in the further statements *)

(** The event with its mouse position forgotten, as [save] writes it. *)
Definition forget_mouse_pos (e : input_event) : input_event :=
  {| type := type e; modifiers := modifiers e; sequence := sequence e;
     mouse_pos := mk_point 0 0 |}.

Definition forget_mouse_positions (a : action_attributes) : action_attributes :=
  set_input_events (forget_mouse_pos <$> input_events a) a.

(** The events of [events] that are not equal to [event]. *)
Definition without_event (event : input_event) (events : list input_event)
  : list input_event :=
  filter (λ e, input_event_eqb e event = false) events.

(** No two events of the list are equal. *)
Fixpoint distinct_events (events : list input_event) : Prop :=
  match events with
  | [] => True
  | e :: rest => has_event rest e = false ∧ distinct_events rest
  end.

(** The input methods and modifier names [load] knows. *)
Definition known_input_method (input_method : string) : Prop :=
  input_method = "keyboard_any" ∨ input_method = "keyboard_char"
  ∨ input_method = "keyboard" ∨ input_method = "keyboard_code"
  ∨ input_method = "gamepad" ∨ input_method = "mouse".

Definition known_modifier (str : string) : Prop :=
  str = "ctrl" ∨ str = "alt" ∨ str = "shift".

(** A [bindings] object [load] reads without an error. *)
Definition readable_keybinding (keybinding : json_keybinding) : Prop :=
  known_input_method (j_input_method keybinding)
  ∧ (∀ vals, j_mod keybinding = Some vals → Forall known_modifier vals)
  ∧ j_key keybinding ≠ key_missing.

Definition is_keybinding (action : json_action) : Prop :=
  default "keybinding" (j_type action) = "keybinding".

(** * Lemmas *)

(** ** The resolver *)

Lemma lookup_action_insert (ac : t_action_contexts) c (m : t_actions) c' a :
  lookup_action (<[c := m]> ac) c' a
  = if decide (c = c') then m !! a else lookup_action ac c' a.
Proof.
  unfold lookup_action. rewrite lookup_insert.
  destruct (decide (c = c')); done.
Qed.

Lemma lookup_action_Some (ac : t_action_contexts) c a e :
  lookup_action ac c a = Some e ↔ ∃ m, ac !! c = Some m ∧ m !! a = Some e.
Proof.
  unfold lookup_action. destruct (ac !! c) as [m|]; simpl; split.
  - eauto.
  - by intros (m' & [= <-] & ?).
  - done.
  - by intros (? & ? & ?).
Qed.

Lemma map_index_ctx (ac : t_action_contexts) k m ac1 :
  map_index ∅ ac k = (m, ac1) →
  ac1 !! k = Some m
  ∧ (∀ a, m !! a = lookup_action ac k a)
  ∧ (∀ c a, lookup_action ac1 c a = lookup_action ac c a)
  ∧ (is_Some (ac !! k) → ac1 = ac).
Proof.
  unfold map_index. destruct (ac !! k) as [m0|] eqn:E; intros [= <- <-].
  - split_and!; [done| |done|done].
    intros a. unfold lookup_action. by rewrite E.
  - split_and!.
    + by rewrite lookup_insert_eq.
    + intros a. unfold lookup_action. by rewrite E.
    + intros c a. rewrite lookup_action_insert. destruct (decide (k = c)) as [<-|]; [|done].
      unfold lookup_action. by rewrite E.
    + by intros [? ?].
Qed.

Lemma get_default_action_name_lookup ac a :
  get_default_action_name ac a
  = match lookup_action ac default_context_id a with
    | Some d => name d
    | None => no_translation a
    end.
Proof.
  unfold get_default_action_name, lookup_action.
  destruct (ac !! default_context_id); simpl; [|done]. done.
Qed.

Lemma get_action_attributes_local ac a c e :
  c ≠ default_context_id → lookup_action ac c a = Some e →
  get_action_attributes ac a c = (e, true, ac).
Proof.
  intros Hc He. unfold get_action_attributes.
  rewrite decide_True by done. by rewrite He.
Qed.

Lemma get_action_attributes_default_hit ac a c d :
  (c ≠ default_context_id → lookup_action ac c a = None) →
  lookup_action ac default_context_id a = Some d →
  get_action_attributes ac a c = (d, false, ac).
Proof.
  intros Hc Hd. unfold get_action_attributes.
  assert ((if decide (c ≠ default_context_id) then lookup_action ac c a else None) = None) as ->.
  { destruct (decide _); auto. }
  destruct (map_index ∅ ac default_context_id) as [m ac1] eqn:E.
  apply map_index_ctx in E as (H1 & H2 & H3 & H4).
  rewrite H2, Hd. rewrite H4; [done|].
  apply lookup_action_Some in Hd as (? & -> & _). done.
Qed.

Lemma get_action_attributes_default_miss ac a c :
  (c ≠ default_context_id → lookup_action ac c a = None) →
  lookup_action ac default_context_id a = None →
  ∃ ac', get_action_attributes ac a c = (materialized a, false, ac')
    ∧ lookup_action ac' default_context_id a = Some (materialized a)
    ∧ ∀ c' a', (c', a') ≠ (default_context_id, a) →
        lookup_action ac' c' a' = lookup_action ac c' a'.
Proof.
  intros Hc Hd. unfold get_action_attributes.
  assert ((if decide (c ≠ default_context_id) then lookup_action ac c a else None) = None) as ->.
  { destruct (decide _); auto. }
  destruct (map_index ∅ ac default_context_id) as [m ac1] eqn:E.
  apply map_index_ctx in E as (H1 & H2 & H3 & H4).
  rewrite H2, Hd. rewrite get_default_action_name_lookup, H3, Hd.
  eexists; split; [reflexivity|]. split.
  - rewrite lookup_action_insert, decide_True by done. by rewrite lookup_insert_eq.
  - intros c' a' Hne. rewrite lookup_action_insert.
    destruct (decide (default_context_id = c')) as [<-|]; [|apply H3].
    rewrite lookup_insert_ne by congruence. apply H2.
Qed.

Lemma get_action_attributes_resolve ac a c :
  (get_action_attributes ac a c).1 = resolve ac a c.
Proof.
  unfold resolve.
  destruct (decide (c ≠ default_context_id)) as [Hc|Hc].
  - destruct (lookup_action ac c a) as [e|] eqn:He.
    + by rewrite (get_action_attributes_local _ _ _ e).
    + destruct (lookup_action ac default_context_id a) as [d|] eqn:Hd.
      * by rewrite (get_action_attributes_default_hit _ _ _ d).
      * destruct (get_action_attributes_default_miss ac a c) as (ac' & -> & _); auto.
  - destruct (lookup_action ac default_context_id a) as [d|] eqn:Hd.
    + by rewrite (get_action_attributes_default_hit _ _ _ d).
    + destruct (get_action_attributes_default_miss ac a c) as (ac' & -> & _); auto. done.
Qed.

Lemma get_action_attributes_extends ac a c :
  extends ac (get_action_attributes ac a c).2.
Proof.
  intros c' a'.
  destruct (decide (c ≠ default_context_id)) as [Hc|Hc];
    [destruct (lookup_action ac c a) as [e|] eqn:He|].
  - rewrite (get_action_attributes_local _ _ _ e) by done. by left.
  - destruct (lookup_action ac default_context_id a) as [d|] eqn:Hd.
    + rewrite (get_action_attributes_default_hit _ _ _ d) by done. by left.
    + destruct (get_action_attributes_default_miss ac a c) as (ac' & -> & H1 & H2); auto.
      simpl. destruct (decide ((c', a') = (default_context_id, a))) as [[= -> ->]|]; auto.
  - destruct (lookup_action ac default_context_id a) as [d|] eqn:Hd.
    + rewrite (get_action_attributes_default_hit _ _ _ d) by done. by left.
    + destruct (get_action_attributes_default_miss ac a c) as (ac' & -> & H1 & H2); auto; [done|].
      simpl. destruct (decide ((c', a') = (default_context_id, a))) as [[= -> ->]|]; auto.
Qed.

Lemma extends_refl ac : extends ac ac.
Proof. intros c a. by left. Qed.

Lemma extends_trans ac1 ac2 ac3 : extends ac1 ac2 → extends ac2 ac3 → extends ac1 ac3.
Proof.
  intros H12 H23 c a.
  destruct (H12 c a) as [E|(Hc & E1 & E2)], (H23 c a) as [F|(Hc' & F1 & F2)].
  - left. congruence.
  - right. split_and!; congruence.
  - right. split_and!; congruence.
  - congruence.
Qed.

Lemma resolve_extends ac ac' a c : extends ac ac' → resolve ac' a c = resolve ac a c.
Proof.
  intros Hext. unfold resolve.
  destruct (decide (c ≠ default_context_id)) as [Hc|Hc].
  - destruct (Hext c a) as [->|(-> & _)]; [|done].
    destruct (lookup_action ac c a); [done|].
    destruct (Hext default_context_id a) as [->|(_ & -> & ->)]; done.
  - destruct (Hext default_context_id a) as [->|(_ & -> & ->)]; done.
Qed.

Lemma action_uses_input_resolve ctxt ac a e :
  (action_uses_input ctxt ac a e).1 = uses ac (category ctxt) e a.
Proof.
  unfold action_uses_input, uses. rewrite <- get_action_attributes_resolve.
  by destruct (get_action_attributes ac a (category ctxt)) as [[? ?] ?].
Qed.


Lemma uses_extends ac ac' cat e a : extends ac ac' → uses ac' cat e a = uses ac cat e a.
Proof. intros H. unfold uses. by rewrite (resolve_extends ac ac'). Qed.

Lemma find_ext_eq {A} (f g : A → bool) (l : list A) :
  (∀ a, f a = g a) → find f l = find g l.
Proof.
  intros H. induction l as [|x l IH]; [done|]. simpl. by rewrite H, IH.
Qed.

Lemma input_to_action_scan_find cat e l ac :
  (input_to_action_scan cat e l ac).1
  = default CATA_ERROR (find (uses ac cat e) l)
  ∧ extends ac (input_to_action_scan cat e l ac).2.
Proof.
  revert ac. induction l as [|a l IH]; intros ac; simpl.
  - split; [done|apply extends_refl].
  - unfold get_input_for_action.
    pose proof (get_action_attributes_resolve ac a cat) as Hr.
    pose proof (get_action_attributes_extends ac a cat) as Hx.
    destruct (get_action_attributes ac a cat) as [[attrs loc] ac'].
    simpl in Hr, Hx. unfold uses at 1. rewrite <- Hr. simpl.
    destruct (has_event (input_events attrs) e); [done|].
    destruct (IH ac') as [-> IH2]. split.
    + f_equal. apply find_ext_eq. intros b. by apply uses_extends.
    + by eapply extends_trans.
Qed.

Lemma find_first_match {A} (f : A → bool) (l : list A) i a :
  l !! i = Some a → f a = true →
  (∀ j b, (j < i)%nat → l !! j = Some b → f b = false) →
  find f l = Some a.
Proof.
  revert i. induction l as [|x l IH]; intros i Hi Ha Hbefore; [done|].
  destruct i as [|i]; simpl in *.
  - injection Hi as ->. by rewrite Ha.
  - rewrite (Hbefore 0%nat x) by (done || lia).
    apply (IH i); [done..|]. intros j b Hj Hb. apply (Hbefore (S j) b); [lia|done].
Qed.

Lemma find_no_match {A} (f : A → bool) (l : list A) :
  (∀ a, a ∈ l → f a = false) → find f l = None.
Proof.
  induction l as [|x l IH]; intros H; [done|]. simpl.
  rewrite H by constructor. apply IH. intros a Ha. apply H. by constructor.
Qed.


(** ** Removing and adding bindings *)

Lemma remove_input_for_action_other ac a c c' a' :
  (c', a') ≠ (c, a) →
  lookup_action (remove_input_for_action ac a c) c' a' = lookup_action ac c' a'.
Proof.
  intros Hne. unfold remove_input_for_action.
  destruct (ac !! c) as [m|] eqn:Hm; [|done].
  destruct (m !! a) as [e|] eqn:He; [|done].
  assert (∀ m', (∀ k, k ≠ a → m' !! k = m !! k) →
            lookup_action (<[c:=m']> ac) c' a' = lookup_action ac c' a') as Hgen.
  { intros m' Hm'. rewrite lookup_action_insert.
    destruct (decide (c = c')) as [<-|]; [|done].
    unfold lookup_action. rewrite Hm. simpl. apply Hm'. congruence. }
  destruct (is_user_created e); [|destruct (input_events e)]; apply Hgen; intros k Hk.
  - by rewrite lookup_delete_ne.
  - by rewrite lookup_delete_ne.
  - by rewrite lookup_insert_ne.
Qed.

Lemma remove_input_for_action_entry ac a c entry :
  lookup_action ac c a = Some entry →
  lookup_action (remove_input_for_action ac a c) c a
  = if is_user_created entry then None
    else match input_events entry with
         | [] => None
         | _ :: _ => Some (set_input_events [] entry)
         end.
Proof.
  intros He. apply lookup_action_Some in He as (m & Hm & He).
  unfold remove_input_for_action. rewrite Hm, He.
  destruct (is_user_created entry); [|destruct (input_events entry)];
    rewrite lookup_action_insert, decide_True by done.
  - by rewrite lookup_delete_eq.
  - by rewrite lookup_delete_eq.
  - by rewrite lookup_insert_eq.
Qed.

Lemma get_or_create_event_list_miss ac a c :
  lookup_action ac c a = None →
  ∃ ac', get_or_create_event_list ac a c = ([], ac')
    ∧ lookup_action ac' c a
      = Some {| is_user_created := true;
                name := if decide (c = default_context_id) then translation_default
                        else match lookup_action ac default_context_id a with
                             | Some d => name d
                             | None => no_translation a
                             end;
                input_events := [] |}
    ∧ ∀ c' a', (c', a') ≠ (c, a) → lookup_action ac' c' a' = lookup_action ac c' a'.
Proof.
  intros Hmiss. unfold get_or_create_event_list.
  destruct (map_index ∅ ac c) as [m ac1] eqn:E.
  apply map_index_ctx in E as (H1 & H2 & H3 & H4).
  rewrite H2, Hmiss. eexists; split; [reflexivity|]. split.
  - rewrite lookup_action_insert, decide_True, lookup_insert_eq by done.
    f_equal. unfold set_is_user_created, set_name; simpl. f_equal.
    rewrite get_default_action_name_lookup, lookup_action_insert.
    destruct (decide (c = default_context_id)) as [->|Hne].
    + by rewrite lookup_insert_eq.
    + by rewrite H3.
  - intros c' a' Hne. rewrite !lookup_action_insert.
    destruct (decide (c = c')) as [<-|]; [|by rewrite H3].
    rewrite lookup_insert_ne by congruence. apply H2.
Qed.

Lemma get_or_create_event_list_hit ac a c e :
  lookup_action ac c a = Some e →
  get_or_create_event_list ac a c = (input_events e, ac).
Proof.
  intros Hhit. unfold get_or_create_event_list.
  destruct (map_index ∅ ac c) as [m ac1] eqn:E.
  apply map_index_ctx in E as (H1 & H2 & H3 & H4).
  rewrite H2, Hhit. rewrite H4; [done|].
  apply lookup_action_Some in Hhit as (? & -> & _). done.
Qed.

Lemma lookup_action_alter (ac : t_action_contexts) f c a c' a' :
  lookup_action (alter (alter f a) c ac) c' a'
  = if decide ((c', a') = (c, a)) then f <$> lookup_action ac c a
    else lookup_action ac c' a'.
Proof.
  unfold lookup_action. rewrite lookup_alter.
  destruct (decide (c = c')) as [<-|Hc].
  - destruct (ac !! c) as [m|]; simpl.
    + rewrite lookup_alter. destruct (decide (a = a')) as [<-|Ha].
      * by rewrite decide_True.
      * rewrite decide_False; [done|congruence].
    + by destruct (decide _).
  - rewrite decide_False; [done|congruence].
Qed.

Lemma add_input_for_action_new ac a c ev :
  lookup_action ac c a = None →
  lookup_action (add_input_for_action ac a c ev) c a
  = Some {| is_user_created := true;
            name := if decide (c = default_context_id) then translation_default
                    else match lookup_action ac default_context_id a with
                         | Some d => name d
                         | None => no_translation a
                         end;
            input_events := [ev] |}.
Proof.
  intros Hmiss. unfold add_input_for_action.
  destruct (get_or_create_event_list_miss ac a c Hmiss) as (ac' & -> & Hin & _).
  simpl. rewrite lookup_action_alter, decide_True by done. by rewrite Hin.
Qed.

(** ** Loading a record *)

Lemma map_index_eq `{Countable K} {V} (d : V) (m : gmap K V) (k : K) :
  map_index d m k = (default d (m !! k), <[k := default d (m !! k)]> m).
Proof.
  unfold map_index. destruct (m !! k) as [v|] eqn:E; simpl; [|done].
  by rewrite insert_id.
Qed.

Lemma load_action_spec im u r events :
  default "keybinding" (j_type r) = "keybinding" →
  read_bindings im (j_bindings r) [] = Some events →
  let c := default default_context_id (j_category r) in
  let a := j_id r in
  let old := lookup_action (action_contexts im) c a in
  ∃ im',
    load_action im u r = Some im'
    ∧ (∀ c' a', (c', a') ≠ (c, a) →
         lookup_action (action_contexts im') c' a'
         = lookup_action (action_contexts im) c' a')
    ∧ lookup_action (action_contexts im') c a
      = (if record_applied u r events old
         then Some (applied_entry u r events old)
         else named_entry u r old)
    ∧ (record_applied u r events old = false →
         action_contexts im'
         = <[c := default ∅ (action_contexts im !! c)]> (action_contexts im)).
Proof.
  intros Hty Hev c a old. unfold load_action.
  rewrite decide_False by (by intros []).
  rewrite map_index_eq. fold c a. rewrite Hev.
  set (m0 := default ∅ (action_contexts im !! c)).
  assert (Hm0 : ∀ k, m0 !! k = lookup_action (action_contexts im) c k).
  { intros k. unfold m0, lookup_action. by destruct (action_contexts im !! c). }
  set (m1 := match j_name r with
             | Some n => if u then m0 else
                 let '(a0, actions') := map_index action_attributes_default m0 a in
                 <[a := set_name (to_translation n) a0]> actions'
             | None => m0 end).
  assert (Hm1 : m1 !! a = named_entry u r old ∧ ∀ k, k ≠ a → m1 !! k = m0 !! k).
  { unfold m1, named_entry. destruct (j_name r) as [n|]; [destruct u|]; try by rewrite Hm0.
    rewrite map_index_eq. rewrite lookup_insert_eq, Hm0. split; [done|].
    intros k Hk. by rewrite !lookup_insert_ne. }
  destruct Hm1 as [Hm1a Hm1o].
  assert (Happ : (negb u || negb (bool_decide (events = []))
                  || bool_decide (c = default_context_id)
                  || bool_decide (is_Some (m1 !! a)))
                 = record_applied u r events old).
  { unfold record_applied. fold c. by rewrite Hm1a. }
  rewrite Happ. destruct (record_applied u r events old) eqn:Hra.
  - rewrite map_index_eq. eexists; split; [reflexivity|]. simpl.
    split_and!.
    + intros c' a' Hne. rewrite !lookup_action_insert.
      destruct (decide (c = c')) as [<-|]; [|done].
      rewrite !lookup_insert_ne by congruence. rewrite Hm1o by congruence. apply Hm0.
    + rewrite lookup_action_insert, decide_True, lookup_insert_eq by done.
      unfold applied_entry. rewrite Hm1a. by destruct u.
    + done.
  - eexists; split; [reflexivity|]. simpl. split_and!.
    + intros c' a' Hne. rewrite !lookup_action_insert.
      destruct (decide (c = c')) as [<-|]; [|done].
      rewrite Hm1o by congruence. apply Hm0.
    + by rewrite lookup_action_insert, decide_True.
    + intros _. rewrite insert_insert_eq. f_equal.
      unfold m1. destruct (j_name r); [|done].
      destruct u; [done|]. by rewrite <- Happ in *.
Qed.

Lemma load_action_Some im u r im' :
  load_action im u r = Some im' →
  (default "keybinding" (j_type r) ≠ "keybinding" ∧ im' = im)
  ∨ (default "keybinding" (j_type r) = "keybinding"
     ∧ ∃ events, read_bindings im (j_bindings r) [] = Some events).
Proof.
  unfold load_action. destruct (decide _) as [Hne|Heq].
  - intros [= <-]. by left.
  - intros Hl. right. split; [by destruct (decide (default "keybinding" (j_type r) = "keybinding"))|].
    destruct (map_index _ _ _) as [m ac].
    destruct (read_bindings im (j_bindings r) []) as [events|]; [eauto|done].
Qed.


(** ** Saving *)

Section save_lemmas.
Context `{KeyCodes} `{Localization}.

Lemma save_event_is_Some im evt : is_Some (save_event im evt) ↔ saveable evt.
Proof.
  unfold save_event, saveable. destruct (type evt); simpl; split;
    try (intros [? ?]; done); try (intros [?|[?|[?|?]]]; done); eauto.
Qed.

Lemma save_action_is_Some im c a e :
  is_Some (save_action im c a e) ↔ Forall saveable (input_events e).
Proof.
  assert (Forall saveable (input_events e)
          ↔ is_Some (mapM (save_event im) (input_events e))) as ->.
  { rewrite mapM_is_Some, !Forall_forall. split; intros Hall evt Hin.
    - simpl. apply save_event_is_Some. by apply Hall.
    - apply (save_event_is_Some im). by apply (Hall evt). }
  unfold save_action.
  destruct (mapM (save_event im) (input_events e)); simpl; split; intros Hs;
    solve [done | eauto].
Qed.

Lemma save_action_unbound im c a e r :
  save_action im c a e = Some r → input_events e = [] →
  j_id r = a ∧ j_category r = Some c ∧ j_bindings r = [].
Proof.
  unfold save_action. intros Hs He. rewrite He in Hs. simpl in Hs.
  by injection Hs as <-.
Qed.

Lemma save_is_Some im :
  is_Some (save im)
  ↔ ∀ c a e, lookup_action (action_contexts im) c a = Some e →
             Forall saveable (input_events e).
Proof.
  unfold save. rewrite fmap_is_Some, mapM_is_Some, Forall_forall. split.
  - intros Hall c a e (m & Hm & He)%lookup_action_Some.
    assert (Hcm : (c, m) ∈ map_to_list (action_contexts im))
      by (by apply elem_of_map_to_list).
    specialize (Hall (c, m) Hcm). simpl in Hall.
    rewrite mapM_is_Some, Forall_forall in Hall.
    assert (Hae : (a, e) ∈ map_to_list m) by (by apply elem_of_map_to_list).
    specialize (Hall (a, e) Hae). simpl in Hall.
    by apply (save_action_is_Some im c a e).
  - intros Hall [c m] Hm%elem_of_map_to_list. simpl.
    rewrite mapM_is_Some, Forall_forall. intros [a e] He%elem_of_map_to_list. simpl.
    apply save_action_is_Some. apply (Hall c a). apply lookup_action_Some. eauto.
Qed.

Lemma save_contains im out c a e :
  save im = Some out →
  lookup_action (action_contexts im) c a = Some e →
  ∃ r, r ∈ out ∧ save_action im c a e = Some r.
Proof.
  unfold save. intros Hs (m & Hm & He)%lookup_action_Some.
  apply fmap_Some in Hs as (ll & Hll & ->).
  apply mapM_Some in Hll.
  apply elem_of_map_to_list, list_elem_of_lookup in Hm as [i Hi].
  destruct (Forall2_lookup_l _ _ _ _ _ Hll Hi) as (l & Hl & Hml). simpl in Hml.
  apply mapM_Some in Hml.
  apply elem_of_map_to_list, list_elem_of_lookup in He as [j Hj].
  destruct (Forall2_lookup_l _ _ _ _ _ Hml Hj) as (r & Hr & Hsr). simpl in Hsr.
  exists r. split; [|done].
  apply list_elem_of_In, in_concat. exists l.
  split; apply list_elem_of_In; eapply list_elem_of_lookup_2; eauto.
Qed.

End save_lemmas.


(** ** Conflict queries *)

Section conflict_lemmas.
Context `{Localization} `{Enumeration}.




End conflict_lemmas.

(** ** The read-and-resolve loop *)

Section handle_input_lemmas.
Context `{Editor}.

Lemma get_timeout_set_action_contexts ac im :
  get_timeout (set_action_contexts ac im) = get_timeout im.
Proof. done. Qed.

Lemma handle_input_loop_waits ctxt timeout_arg im pending waits h :
  handle_input_loop ctxt timeout_arg im pending waits = Some h →
  ∃ own, h_waits h = (waits ++ own)%list ∧ own ≠ []
         ∧ Forall (λ t, t = get_timeout im) own.
Proof.
  revert ctxt im waits. induction pending as [|ev pending IH];
    intros ctxt im waits; simpl; [done|].
  assert (Hone : ∀ r c m p,
            Some (mk_handled r c m p (waits ++ [get_timeout im])) = Some h →
            ∃ own, h_waits h = (waits ++ own)%list ∧ own ≠ []
                   ∧ Forall (λ t, t = get_timeout im) own).
  { intros r c m p [= <-]. exists [get_timeout im]. simpl.
    split_and!; [done|done|by constructor]. }
  assert (Hrec : ∀ c ac,
            handle_input_loop c timeout_arg (set_action_contexts ac im) pending
              (waits ++ [get_timeout im]) = Some h →
            ∃ own, h_waits h = (waits ++ own)%list ∧ own ≠ []
                   ∧ Forall (λ t, t = get_timeout im) own).
  { intros c ac Hl. apply IH in Hl as (own & -> & _ & Hall).
    exists (get_timeout im :: own). rewrite <- app_assoc. simpl.
    split_and!; [done|done|]. constructor; [done|].
    by rewrite get_timeout_set_action_contexts in Hall. }
  destruct (decide (type ev = timeout)); [by apply Hone|].
  destruct (input_to_action _ _ ev) as [action ac].
  destruct (decide (action = "HELP_KEYBINDINGS")).
  { destruct (display_menu _ _ pending) as [im' pending']. by apply Hone. }
  destruct (decide (_ ∧ _ ∧ _)); [by apply Hrec|].
  destruct (decide (action ≠ CATA_ERROR)); [by apply Hone|].
  destruct (registered_any_input _); [by apply Hone|by apply Hrec].
Qed.

Lemma handle_input_loop_returns ctxt timeout_arg im pending waits :
  Exists (λ ev, type ev = timeout) pending →
  is_Some (handle_input_loop ctxt timeout_arg im pending waits).
Proof.
  intros Hex. revert ctxt im waits.
  induction pending as [|ev pending IH]; intros ctxt im waits; simpl.
  - by apply Exists_nil in Hex.
  - destruct (decide (type ev = timeout)) as [|Hne]; [done|].
    apply Exists_cons in Hex as [?|Hex]; [done|].
    destruct (input_to_action _ _ ev) as [action ac].
    destruct (decide (action = "HELP_KEYBINDINGS")).
    { by destruct (display_menu _ _ pending) as [im' pending']. }
    destruct (decide (_ ∧ _ ∧ _)); [by apply IH|].
    destruct (decide (action ≠ CATA_ERROR)); [done|].
    destruct (registered_any_input _); [done|by apply IH].
Qed.

End handle_input_lemmas.

(** ** Integers as text *)

Lemma digit_cases (d : Z) :
  0 ≤ d ≤ 9 →
  d = 0 ∨ d = 1 ∨ d = 2 ∨ d = 3 ∨ d = 4 ∨ d = 5 ∨ d = 6 ∨ d = 7 ∨ d = 8 ∨ d = 9.
Proof. lia. Qed.

Ltac each_digit H :=
  apply digit_cases in H;
  destruct H as [->|[->|[->|[->|[->|[->|[->|[->|[->| ->]]]]]]]]].

Lemma digit_value_char d : 0 ≤ d ≤ 9 → digit_value (digit_char d) = Some d.
Proof. intros Hd. each_digit Hd; reflexivity. Qed.


Lemma mod10_digit n : 0 ≤ n mod 10 ≤ 9.
Proof. pose proof (Z.mod_pos_bound n 10). lia. Qed.

Lemma log2_div10 n : 10 ≤ n → Z.log2 (n / 10) < Z.log2 n.
Proof.
  intros Hn. apply Z.log2_lt_pow2; [apply Z.div_str_pos; lia|].
  pose proof (Z.log2_spec n ltac:(lia)) as [_ Hup].
  replace (Z.succ (Z.log2 n)) with (Z.log2 n + 1) in Hup by lia.
  rewrite Z.pow_add_r in Hup by (try apply Z.log2_nonneg; lia).
  apply Z.div_lt_upper_bound; lia.
Qed.

Lemma read_digits_uint_to_str fuel n rest :
  0 ≤ n → Z.log2 n < Z.of_nat fuel →
  read_digits (uint_to_str fuel n rest) None = read_digits rest (Some n).
Proof.
  revert n rest. induction fuel as [|fuel IH]; intros n rest Hn Hfuel.
  - pose proof (Z.log2_nonneg n). lia.
  - simpl. destruct (n <? 10) eqn:Hlt.
    + apply Z.ltb_lt in Hlt. simpl.
      rewrite Z.mod_small by lia. rewrite digit_value_char by lia.
      simpl. first [done | do 2 f_equal; lia].
    + apply Z.ltb_ge in Hlt.
      rewrite IH.
      * simpl. rewrite digit_value_char by apply mod10_digit.
        simpl. do 2 f_equal. pose proof (Z.div_mod n 10). lia.
      * apply Z.div_pos; lia.
      * pose proof (log2_div10 n Hlt). lia.
Qed.

Lemma uint_to_str_head fuel n rest :
  0 ≤ n →
  ∃ d tail, 0 ≤ d ≤ 9 ∧ uint_to_str (S fuel) n rest = String (digit_char d) tail.
Proof.
  revert n rest. induction fuel as [|fuel IH]; intros n rest Hn.
  - simpl. exists (n mod 10). destruct (n <? 10); eexists;
      (split; [apply mod10_digit|reflexivity]).
  - change (uint_to_str (S (S fuel)) n rest)
      with (let acc' := String (digit_char (n mod 10)) rest in
            if n <? 10 then acc' else uint_to_str (S fuel) (n / 10) acc').
    simpl. destruct (n <? 10).
    + exists (n mod 10). eexists. split; [apply mod10_digit|reflexivity].
    + apply IH. apply Z.div_pos; lia.
Qed.

Lemma digits_fuel_enough n : Z.log2 n < Z.of_nat (digits_fuel n).
Proof. unfold digits_fuel. pose proof (Z.log2_nonneg n). lia. Qed.

(** The text of a non-negative integer: digits only, read back as the
    number. *)
Lemma uint_text n :
  0 ≤ n →
  ∃ d tail,
    0 ≤ d ≤ 9
    ∧ uint_to_str (digits_fuel n) n "" = String (digit_char d) tail
    ∧ read_digits (uint_to_str (digits_fuel n) n "") None = Some n.
Proof.
  intros Hn. destruct (uint_to_str_head (Z.to_nat (Z.log2 n)) n "" Hn)
    as (d & tail & Hd & Hhead).
  exists d, tail. split; [done|]. split; [exact Hhead|].
  rewrite read_digits_uint_to_str; [done|done|apply digits_fuel_enough].
Qed.

Lemma decode_int_minus rest :
  decode_int (String "-" rest) = - default 0 (read_digits rest None).
Proof. reflexivity. Qed.


Lemma decode_int_to_str z : decode_int (int_to_str z) = z.
Proof.
  unfold int_to_str. destruct (z <? 0) eqn:Hz.
  - apply Z.ltb_lt in Hz. destruct (uint_text (- z)) as (d & tail & Hd & _ & Hread); [lia|].
    rewrite decode_int_minus, Hread. simpl. lia.
  - apply Z.ltb_ge in Hz. destruct (uint_text z Hz) as (d & tail & Hd & Hhead & Hread).
    unfold decode_int. rewrite Hread. rewrite Hhead. simpl.
    each_digit Hd; reflexivity.
Qed.

Lemma int_to_str_inj z1 z2 : int_to_str z1 = int_to_str z2 → z1 = z2.
Proof.
  intros Heq. rewrite <- (decode_int_to_str z1), <- (decode_int_to_str z2).
  by rewrite Heq.
Qed.



(** ** The keycode registry *)











#[local] Instance format_F_inj : Inj (=) (=) format_F.
Proof. intros i j [= Heq]. by apply int_to_str_inj. Qed.







Section init_lemmas.
Context `{KeyCodes}.











End init_lemmas.

(** ** Checking a concrete table *)

Lemma absent_everywhere (ac : t_action_contexts) (a : string) :
  bool_decide (Forall (λ cm, cm.2 !! a = None) (map_to_list ac)) = true →
  ∀ c, lookup_action ac c a = None.
Proof.
  intros Hall%bool_decide_eq_true c. rewrite Forall_forall in Hall.
  unfold lookup_action. destruct (ac !! c) as [m|] eqn:Hm; [|done].
  apply (Hall (c, m)). by apply elem_of_map_to_list.
Qed.

(** * The claims *)

(** ** C1: resolution prefers the context, then the global default *)

(** C1.  For every action id and every context [c] other than ["default"]:
    if [c] exists in the table and holds an entry for the action id,
    [get_action_attributes] returns that entry, reports
    [overwrites_default = true] and leaves the table as it is; otherwise
    it reports [false] and returns the entry the action id has in the
    ["default"] context of the table it leaves, which is the entry that
    was there, with the table unchanged, when there was one. *)
Theorem C1_resolve_local_or_default
    (ac : t_action_contexts) (action_id c : string) :
  c ≠ default_context_id →
  (∀ entry, lookup_action ac c action_id = Some entry →
     get_action_attributes ac action_id c = (entry, true, ac))
  ∧ (lookup_action ac c action_id = None →
     ∃ entry ac',
       get_action_attributes ac action_id c = (entry, false, ac')
       ∧ lookup_action ac' default_context_id action_id = Some entry
       ∧ (∀ d, lookup_action ac default_context_id action_id = Some d →
            entry = d ∧ ac' = ac)).
Proof.
  intros Hc. split.
  - intros entry He. by apply get_action_attributes_local.
  - intros Hmiss.
    destruct (lookup_action ac default_context_id action_id) as [d|] eqn:Hd.
    + exists d, ac. split_and!; [by apply get_action_attributes_default_hit|done|].
      by intros ? [= <-].
    + destruct (get_action_attributes_default_miss ac action_id c)
        as (ac' & Hget & Hin & _); [done..|].
      exists (materialized action_id), ac'. split_and!; done.
Qed.

(** The spec's example: ["vehicle"] overrides ["UP"], and ["QUIT"] falls
    back to the global binding. *)
Lemma C1_witness :
  "vehicle" ≠ default_context_id
  ∧ get_action_attributes sample_table "UP" "vehicle"
    = (shipped "Accelerate" [key_w], true, sample_table)
  ∧ ∃ entry ac',
      get_action_attributes sample_table "QUIT" "vehicle" = (entry, false, ac')
      ∧ lookup_action ac' default_context_id "QUIT" = Some entry
      ∧ (∀ d, lookup_action sample_table default_context_id "QUIT" = Some d →
           entry = d ∧ ac' = sample_table).
Proof.
  assert (Hne : "vehicle" ≠ default_context_id) by discriminate.
  split; [exact Hne|]. split.
  - apply (proj1 (C1_resolve_local_or_default sample_table "UP" "vehicle" Hne)).
    vm_compute. reflexivity.
  - apply (proj2 (C1_resolve_local_or_default sample_table "QUIT" "vehicle" Hne)).
    vm_compute. reflexivity.
Defined.

Example resolve_UP_in_default :
  get_action_attributes sample_table "UP" "default"
  = (shipped "Move up" [key_up], false, sample_table).
Proof. vm_compute. reflexivity. Qed.

(** ** C2: materialization on first resolution *)

Section C2.
Context `{KeyCodes} `{Localization}.

(** C2, amended.  For every action id that has no entry in any context,
    the first resolution (from any context) creates the entry of the
    action id in the ["default"] context: not user-created, no event, and
    named by the action id itself, so the name is non-empty exactly when
    the action id is.  No other entry changes.  A second resolution, from
    any context, returns that same entry and leaves the table as it is.
    The entry is part of the table: a save that succeeded before still
    succeeds, and the array a save writes holds an object for the action
    id in category ["default"] with no binding. *)
Theorem C2_materialization
    (im : input_manager) (action_id context : string) :
  (∀ c, lookup_action (action_contexts im) c action_id = None) →
  ∃ entry ac1,
    get_action_attributes (action_contexts im) action_id context
    = (entry, false, ac1)
    ∧ entry = {| is_user_created := false;
                 name := no_translation action_id;
                 input_events := [] |}
    ∧ (translation_empty (name entry) = false ↔ action_id ≠ "")
    ∧ lookup_action ac1 default_context_id action_id = Some entry
    ∧ (∀ c a, (c, a) ≠ (default_context_id, action_id) →
         lookup_action ac1 c a = lookup_action (action_contexts im) c a)
    ∧ (∀ context', get_action_attributes ac1 action_id context'
                   = (entry, false, ac1))
    ∧ (is_Some (save im) → is_Some (save (set_action_contexts ac1 im)))
    ∧ (∀ out, save (set_action_contexts ac1 im) = Some out →
         ∃ r, r ∈ out ∧ j_id r = action_id
              ∧ j_category r = Some default_context_id ∧ j_bindings r = []).
Proof.
  intros Hnone.
  destruct (get_action_attributes_default_miss (action_contexts im) action_id context)
    as (ac1 & Hget & Hin & Hother); [auto..|].
  exists (materialized action_id), ac1. split_and!; try done.
  - simpl. unfold translation_empty. simpl. rewrite bool_decide_eq_false. done.
  - intros context'. apply get_action_attributes_default_hit; [|done].
    intros Hc. rewrite Hother; [done|congruence].
  - rewrite !save_is_Some. intros Hall c a e. simpl.
    destruct (decide ((c, a) = (default_context_id, action_id))) as [[= -> ->]|Hne].
    + rewrite Hin. intros [= <-]. constructor.
    + rewrite Hother by done. apply Hall.
  - intros out Hout.
    destruct (save_contains _ out default_context_id action_id
                (materialized action_id) Hout) as (r & Hr & Hsr); [done|].
    exists r. split; [done|]. by eapply save_action_unbound.
Qed.

End C2.

(** ["PAGE_UP"] is bound nowhere in the sample table; resolving it from
    the ["vehicle"] context creates its global entry once. *)
Lemma C2_witness :
  (∀ c, lookup_action (action_contexts sample_manager) c "PAGE_UP" = None)
  ∧ ∃ entry ac1,
      get_action_attributes (action_contexts sample_manager) "PAGE_UP" "vehicle"
      = (entry, false, ac1)
      ∧ entry = {| is_user_created := false;
                   name := no_translation "PAGE_UP";
                   input_events := [] |}
      ∧ get_action_attributes ac1 "PAGE_UP" "vehicle" = (entry, false, ac1).
Proof.
  assert (Hnone : ∀ c, lookup_action (action_contexts sample_manager) c "PAGE_UP"
                       = None).
  { apply absent_everywhere. vm_compute. reflexivity. }
  split; [exact Hnone|].
  destruct (@C2_materialization sample_keycodes sample_localization
              sample_manager "PAGE_UP" "vehicle" Hnone)
    as (entry & ac1 & Hget & Hentry & _ & _ & _ & Hagain & _).
  exists entry, ac1. split; [exact Hget|]. split; [exact Hentry|]. apply Hagain.
Defined.

(** The empty action id has no entry in the empty table, and the entry
    its resolution creates has an empty name. *)
Lemma C2_counterexample :
  (∀ c, lookup_action (∅ : t_action_contexts) c "" = None)
  ∧ translation_empty
      (name (get_action_attributes ∅ "" default_context_id).1.1) = true
  ∧ input_events (get_action_attributes ∅ "" default_context_id).1.1 = [].
Proof.
  split; [|split; vm_compute; reflexivity].
  intros c. unfold lookup_action. by rewrite lookup_empty.
Qed.

(** ** C3: lookup returns the first registered action bound to the event *)

(** C3.  For every session, with its actions in registration order, and
    every probe event: [input_to_action] returns the registered action of
    smallest index whose bindings, resolved in the session's context,
    hold an event equal to the probe, and [CATA_ERROR] when no registered
    action is bound to it; with ["FOO"] registered before ["BAR"] and both
    bound to the event, it returns ["FOO"]. *)
Theorem C3_input_to_action_first_match
    (ctxt : input_context) (ac : t_action_contexts) (e : input_event) :
  (∀ i a,
      registered_actions ctxt !! i = Some a →
      (action_uses_input ctxt ac a e).1 = true →
      (∀ j b, (j < i)%nat → registered_actions ctxt !! j = Some b →
              (action_uses_input ctxt ac b e).1 = false) →
      (input_to_action ctxt ac e).1 = a)
  ∧ ((∀ a, a ∈ registered_actions ctxt →
           (action_uses_input ctxt ac a e).1 = false) →
     (input_to_action ctxt ac e).1 = CATA_ERROR)
  ∧ (registered_actions ctxt = ["FOO"; "BAR"] →
     (action_uses_input ctxt ac "FOO" e).1 = true →
     (action_uses_input ctxt ac "BAR" e).1 = true →
     (input_to_action ctxt ac e).1 = "FOO").
Proof.
  unfold input_to_action.
  destruct (input_to_action_scan_find (category ctxt) e (registered_actions ctxt) ac)
    as [-> _].
  split_and!.
  - intros i a Hi Ha Hbefore.
    rewrite (find_first_match _ _ i a); [done|done|by rewrite <- action_uses_input_resolve|].
    intros j b Hj Hb. rewrite <- action_uses_input_resolve. eauto.
  - intros Hnone. rewrite find_no_match; [done|].
    intros a Ha. rewrite <- action_uses_input_resolve. eauto.
  - intros -> Hfoo _. simpl.
    by rewrite <- action_uses_input_resolve, Hfoo.
Qed.

(** ["FOO"] and ["BAR"], registered in this order, are both bound to [x];
    nothing is bound to [w] on that screen. *)
Lemma C3_witness :
  registered_actions foo_bar_session = ["FOO"; "BAR"]
  ∧ (action_uses_input foo_bar_session sample_table "FOO" key_x).1 = true
  ∧ (action_uses_input foo_bar_session sample_table "BAR" key_x).1 = true
  ∧ (input_to_action foo_bar_session sample_table key_x).1 = "FOO"
  ∧ (input_to_action foo_bar_session sample_table key_w).1 = CATA_ERROR.
Proof.
  split; [reflexivity|]. split; [vm_compute; reflexivity|].
  split; [vm_compute; reflexivity|]. split.
  - apply (proj2 (proj2 (C3_input_to_action_first_match
                           foo_bar_session sample_table key_x)));
      vm_compute; reflexivity.
  - apply (proj1 (proj2 (C3_input_to_action_first_match
                           foo_bar_session sample_table key_w))).
    intros a Ha. apply list_elem_of_In in Ha. simpl in Ha.
    destruct Ha as [<-|[<-|[]]]; vm_compute; reflexivity.
Defined.

(** ** C4: empty user records *)

Lemma record_applied_true u r events old :
  u = false ∨ events ≠ []
  ∨ default default_context_id (j_category r) = default_context_id
  ∨ is_Some old →
  record_applied u r events old = true.
Proof.
  intros Happ. unfold record_applied. destruct u; [|done]. simpl.
  destruct Happ as [?|[Hne|[Hc|Hsome]]]; [done| | |].
  - by rewrite (bool_decide_eq_false_2 (events = [])).
  - rewrite (bool_decide_eq_true_2 (default _ _ = _)) by done.
    by destruct (bool_decide (events = [])).
  - unfold named_entry. destruct (j_name r);
      rewrite (bool_decide_eq_true_2 (is_Some _)) by done;
      by destruct (bool_decide (events = [])), (bool_decide (default _ _ = _)).
Qed.

Lemma applied_entry_events u r events old :
  input_events (applied_entry u r events old)
  = events ++
    (if u && (default 0 (j_version r) =? 0)
     then filter (λ evt, type evt = keyboard_code)
            (input_events (default action_attributes_default old))
     else []).
Proof.
  unfold applied_entry.
  destruct (j_is_user_created r); simpl;
    (destruct u; simpl;
     [unfold named_entry; destruct (j_name r);
      destruct (default 0 (j_version r) =? 0); by rewrite ?app_nil_r
     |by rewrite app_nil_r]).
Qed.

Lemma applied_entry_is_user_created u r events old b :
  j_is_user_created r = Some b →
  is_user_created (applied_entry u r events old) = b.
Proof. unfold applied_entry. by intros ->. Qed.

(** C4, amended.  A user-preference record whose resolved event list is
    empty, whose context is not the global default and whose action has no
    entry in that context is discarded: no entry of any action in any
    context is added, changed or removed; the table is the same when the
    record's context exists, and gains that context, empty, when it does
    not.  A record from a shipped file, a user record with an event, a
    user record for the global default context and a user record for an
    action that has an entry in the context are applied: the entry of the
    action holds the record's events (followed, for a version-0 user
    record, by the keyboard-code events it had) and the record's
    [is_user_created] when it has the member. *)
Theorem C4_empty_binding_suppression
    (im : input_manager) (is_user_preferences : bool) (action : json_action)
    (events : list input_event) :
  default "keybinding" (j_type action) = "keybinding" →
  read_bindings im (j_bindings action) [] = Some events →
  let context := default default_context_id (j_category action) in
  let action_id := j_id action in
  let ac := action_contexts im in
  ∃ im',
    load_action im is_user_preferences action = Some im'
    ∧ (is_user_preferences = true → events = [] →
       context ≠ default_context_id →
       lookup_action ac context action_id = None →
       (∀ c a, lookup_action (action_contexts im') c a = lookup_action ac c a)
       ∧ (is_Some (ac !! context) → action_contexts im' = ac)
       ∧ (ac !! context = None → action_contexts im' = <[context := ∅]> ac))
    ∧ (is_user_preferences = false ∨ events ≠ []
       ∨ context = default_context_id
       ∨ is_Some (lookup_action ac context action_id) →
       ∃ entry,
         lookup_action (action_contexts im') context action_id = Some entry
         ∧ input_events entry
           = events ++
             (if is_user_preferences && (default 0 (j_version action) =? 0)
              then filter (λ evt, type evt = keyboard_code)
                     (input_events
                        (default action_attributes_default
                                 (lookup_action ac context action_id)))
              else [])
         ∧ (∀ b, j_is_user_created action = Some b → is_user_created entry = b)).
Proof.
  intros Hty Hev context action_id ac.
  destruct (load_action_spec im is_user_preferences action events Hty Hev)
    as (im' & Hload & Hother & Hentry & Hdisc).
  fold context action_id ac in Hother, Hentry, Hdisc.
  exists im'. split; [done|]. split.
  - intros -> -> Hc Hold.
    assert (Hra : record_applied true action []
                    (lookup_action ac context action_id) = false).
    { unfold record_applied, named_entry. fold context. rewrite Hold.
      rewrite (bool_decide_eq_false_2 (context = _)) by done.
      by destruct (j_name action). }
    rewrite Hra in Hentry. specialize (Hdisc Hra). split_and!.
    + intros c a. destruct (decide ((c, a) = (context, action_id))) as [[= -> ->]|Hne].
      * rewrite Hentry, Hold. unfold named_entry. by destruct (j_name action).
      * by apply Hother.
    + intros [m Hm]. rewrite Hdisc, Hm. simpl. by apply insert_id.
    + intros Hm. by rewrite Hdisc, Hm.
  - intros Happ. rewrite record_applied_true in Hentry by done.
    eexists. split; [exact Hentry|]. split.
    + apply applied_entry_events.
    + intros b. apply applied_entry_is_user_created.
Qed.

(** The stale record, a user record without bindings for a context that
    has no entry of ["FOO"], is discarded and every entry stays. *)
Lemma C4_witness :
  default "keybinding" (j_type stale_record) = "keybinding"
  ∧ read_bindings sample_manager (j_bindings stale_record) [] = Some []
  ∧ lookup_action sample_table "crafting" "FOO" = None
  ∧ ∃ im',
      load_action sample_manager true stale_record = Some im'
      ∧ ∀ c a, lookup_action (action_contexts im') c a
               = lookup_action sample_table c a.
Proof.
  assert (Hty : default "keybinding" (j_type stale_record) = "keybinding")
    by reflexivity.
  assert (Hev : read_bindings sample_manager (j_bindings stale_record) [] = Some [])
    by reflexivity.
  assert (Hold : lookup_action sample_table "crafting" "FOO" = None)
    by (vm_compute; reflexivity).
  split; [exact Hty|]. split; [exact Hev|]. split; [exact Hold|].
  destruct (C4_empty_binding_suppression sample_manager true stale_record [] Hty Hev)
    as (im' & Hload & Hdiscarded & _).
  exists im'. split; [exact Hload|].
  apply Hdiscarded; [reflexivity|reflexivity|discriminate|exact Hold].
Defined.

(** The stale record meets every condition of the discard, and loading it
    changes the table: the context ["crafting"] now exists. *)
Lemma C4_counterexample :
  read_bindings sample_manager (j_bindings stale_record) [] = Some []
  ∧ default default_context_id (j_category stale_record) ≠ default_context_id
  ∧ lookup_action (action_contexts sample_manager) "crafting" "FOO" = None
  ∧ action_contexts sample_manager !! "crafting" = None
  ∧ ∃ im',
      load_action sample_manager true stale_record = Some im'
      ∧ action_contexts im' !! "crafting" = Some ∅
      ∧ action_contexts im' ≠ action_contexts sample_manager.
Proof.
  split; [reflexivity|]. split; [discriminate|].
  split; [vm_compute; reflexivity|]. split; [vm_compute; reflexivity|].
  exists (set_action_contexts (<["crafting" := ∅]> sample_table) sample_manager).
  split; [vm_compute; reflexivity|]. split; [vm_compute; reflexivity|].
  intros Heq.
  assert (Hl : action_contexts
                 (set_action_contexts (<["crafting" := ∅]> sample_table) sample_manager)
               !! "crafting" = Some ∅) by (vm_compute; reflexivity).
  rewrite Heq in Hl. vm_compute in Hl. discriminate.
Qed.

(** ** C5: version-0 user records keep the keyboard-code events *)

(** C5.  When a user-preference record of schema version 0 (no ["version"]
    member, or 0) is applied for an action id, the event list the entry
    gets is the record's event list followed by every keyboard-code event
    of the attributes the action had in the record's context, in their
    order; so each of those events is in the merged list. *)
Theorem C5_version0_keeps_keyboard_code
    (im : input_manager) (action : json_action) (events : list input_event) :
  default "keybinding" (j_type action) = "keybinding" →
  read_bindings im (j_bindings action) [] = Some events →
  default 0 (j_version action) = 0 →
  let context := default default_context_id (j_category action) in
  let action_id := j_id action in
  let old := lookup_action (action_contexts im) context action_id in
  events ≠ [] ∨ context = default_context_id ∨ is_Some old →
  ∃ im' entry,
    load_action im true action = Some im'
    ∧ lookup_action (action_contexts im') context action_id = Some entry
    ∧ input_events entry
      = events ++ filter (λ evt, type evt = keyboard_code)
                    (input_events (default action_attributes_default old))
    ∧ (∀ previous evt,
         old = Some previous → evt ∈ input_events previous →
         type evt = keyboard_code → evt ∈ input_events entry).
Proof.
  intros Hty Hev Hv context action_id old Happ.
  destruct (load_action_spec im true action events Hty Hev)
    as (im' & Hload & _ & Hentry & _).
  fold context action_id old in Hentry.
  rewrite record_applied_true in Hentry by (by right).
  assert (Hevents : input_events (applied_entry true action events old)
                    = events ++ filter (λ evt, type evt = keyboard_code)
                                  (input_events (default action_attributes_default old))).
  { rewrite applied_entry_events, Hv. done. }
  exists im', (applied_entry true action events old). split_and!; [done..|].
  intros previous evt Hold Hin Hkc. rewrite Hevents, Hold. simpl.
  apply elem_of_app. right. by apply list_elem_of_filter.
Qed.

(** The spec's example: the global ["QUIT"] has a keyboard-char and a
    keyboard-code event; a version-0 user record binds it to the character
    [Q]; the merged entry has the new character event and the old
    keyboard-code event. *)
Lemma C5_witness :
  default "keybinding" (j_type quit_record) = "keybinding"
  ∧ read_bindings sample_manager (j_bindings quit_record) []
    = Some [input_event_of ∅ 81 keyboard_char]
  ∧ default 0 (j_version quit_record) = 0
  ∧ lookup_action (action_contexts sample_manager) default_context_id "QUIT"
    = Some (shipped "Quit" [key_q; keycode_q])
  ∧ ∃ im' entry,
      load_action sample_manager true quit_record = Some im'
      ∧ lookup_action (action_contexts im') default_context_id "QUIT" = Some entry
      ∧ input_events entry = [input_event_of ∅ 81 keyboard_char; keycode_q].
Proof.
  assert (Hty : default "keybinding" (j_type quit_record) = "keybinding")
    by reflexivity.
  assert (Hev : read_bindings sample_manager (j_bindings quit_record) []
                = Some [input_event_of ∅ 81 keyboard_char])
    by (vm_compute; reflexivity).
  assert (Hv : default 0 (j_version quit_record) = 0) by reflexivity.
  assert (Hold : lookup_action (action_contexts sample_manager)
                   default_context_id "QUIT"
                 = Some (shipped "Quit" [key_q; keycode_q]))
    by (vm_compute; reflexivity).
  split; [exact Hty|]. split; [exact Hev|]. split; [exact Hv|].
  split; [exact Hold|].
  destruct (C5_version0_keeps_keyboard_code sample_manager quit_record
              [input_event_of ∅ 81 keyboard_char] Hty Hev Hv)
    as (im' & entry & Hload & Hentry & Hevents & _).
  { left. discriminate. }
  exists im', entry. split; [exact Hload|]. split; [exact Hentry|].
  rewrite Hevents. vm_compute. reflexivity.
Defined.

(** ** C6: portable key names lead back to their codes *)




Example unknown_9999 :
  @get_keyname sample_keycodes sample_localization
    (add_keyboard_char_keycode_pair 65 "A" input_manager_empty)
    9999 keyboard_char true = "UNKNOWN_9999"
  ∧ get_keycode (add_keyboard_char_keycode_pair 65 "A" input_manager_empty)
      keyboard_char "UNKNOWN_9999" = 9999.
Proof. split; vm_compute; reflexivity. Qed.

(** ** C7: removing the bindings of an action *)

(** C7.  For every action id and context that has an entry for it:
    [remove_input_for_action] deletes the entry when it is user-created;
    otherwise it deletes the entry when its event list is empty and, when
    it is not, keeps the entry with its name, not user-created, and with
    no event at all; no other entry changes.  After the removal of a
    user-created entry of a context other than ["default"], resolving the
    action id in that context gives what the global resolution gives - the
    global entry, or the materialized one when there is none - with
    [overwrites_default = false]. *)
Theorem C7_remove_input_for_action
    (ac : t_action_contexts) (action_id context : string)
    (entry : action_attributes) :
  lookup_action ac context action_id = Some entry →
  let ac' := remove_input_for_action ac action_id context in
  (is_user_created entry = true →
     lookup_action ac' context action_id = None)
  ∧ (is_user_created entry = false → input_events entry = [] →
     lookup_action ac' context action_id = None)
  ∧ (is_user_created entry = false → input_events entry ≠ [] →
     lookup_action ac' context action_id
     = Some {| is_user_created := false; name := name entry; input_events := [] |})
  ∧ (∀ c a, (c, a) ≠ (context, action_id) →
     lookup_action ac' c a = lookup_action ac c a)
  ∧ (is_user_created entry = true → context ≠ default_context_id →
     (get_action_attributes ac' action_id context).1
     = (get_action_attributes ac action_id default_context_id).1
     ∧ (get_action_attributes ac' action_id context).1
       = (default {| is_user_created := false; name := no_translation action_id;
                     input_events := [] |}
                  (lookup_action ac default_context_id action_id), false)).
Proof.
  intros He ac'. subst ac'.
  pose proof (remove_input_for_action_entry ac action_id context entry He) as Hentry.
  split_and!.
  - intros Hu. by rewrite Hentry, Hu.
  - intros Hu Hev. by rewrite Hentry, Hu, Hev.
  - intros Hu Hev. rewrite Hentry, Hu.
    destruct (input_events entry); [done|].
    unfold set_input_events. by rewrite Hu.
  - intros c a Hne. by apply remove_input_for_action_other.
  - intros Hu Hc. rewrite !get_action_attributes_resolve. unfold resolve.
    rewrite decide_True by done. rewrite Hentry, Hu.
    rewrite decide_False by (by intros []).
    rewrite remove_input_for_action_other; [done|congruence].
Qed.

(** The user-created ["FOO"] of ["vehicle"] is deleted, and ["FOO"] then
    resolves to the global entry.  The shipped ["UP"] of ["vehicle"], bound
    to [w], stays with its name and no event; removed once more, it is
    deleted. *)
Lemma C7_witness :
  lookup_action sample_table "vehicle" "FOO"
  = Some {| is_user_created := true; name := to_translation "Foo";
            input_events := [key_f] |}
  ∧ lookup_action (remove_input_for_action sample_table "FOO" "vehicle")
      "vehicle" "FOO" = None
  ∧ (get_action_attributes (remove_input_for_action sample_table "FOO" "vehicle")
       "FOO" "vehicle").1
    = (shipped "Foo" [key_x], false)
  ∧ lookup_action sample_table "vehicle" "UP" = Some (shipped "Accelerate" [key_w])
  ∧ lookup_action (remove_input_for_action sample_table "UP" "vehicle")
      "vehicle" "UP"
    = Some {| is_user_created := false; name := to_translation "Accelerate";
              input_events := [] |}
  ∧ lookup_action
      (remove_input_for_action
         (remove_input_for_action sample_table "UP" "vehicle") "UP" "vehicle")
      "vehicle" "UP" = None.
Proof.
  assert (Hentry : lookup_action sample_table "vehicle" "FOO"
                   = Some {| is_user_created := true; name := to_translation "Foo";
                             input_events := [key_f] |})
    by (vm_compute; reflexivity).
  assert (Hup : lookup_action sample_table "vehicle" "UP"
                = Some (shipped "Accelerate" [key_w]))
    by (vm_compute; reflexivity).
  split; [exact Hentry|].
  destruct (C7_remove_input_for_action sample_table "FOO" "vehicle" _ Hentry)
    as (Hdeleted & _ & _ & _ & Hfallback).
  split; [by apply Hdeleted|].
  split.
  { destruct Hfallback as [_ ->]; [reflexivity|discriminate|].
    vm_compute. reflexivity. }
  split; [exact Hup|].
  destruct (C7_remove_input_for_action sample_table "UP" "vehicle" _ Hup)
    as (_ & _ & Hcleared & _ & _).
  assert (Hcleared' :
            lookup_action (remove_input_for_action sample_table "UP" "vehicle")
              "vehicle" "UP"
            = Some {| is_user_created := false; name := to_translation "Accelerate";
                      input_events := [] |})
    by (apply Hcleared; [reflexivity|discriminate]).
  split; [exact Hcleared'|].
  destruct (C7_remove_input_for_action
              (remove_input_for_action sample_table "UP" "vehicle")
              "UP" "vehicle" _ Hcleared')
    as (_ & Hempty & _ & _ & _).
  apply Hempty; reflexivity.
Defined.

(** ** C8: the conflict query *)

Section C8.
Context `{Localization} `{Enumeration}.


End C8.


(** Asked without the check of [display_menu], for ["FOO"] that is itself
    bound to [x], the query names ["FOO"] too. *)
Example get_conflicts_without_the_check :
  (action_uses_input foo_bar_session sample_table "FOO" key_x).1 = true
  ∧ (@get_conflicts sample_localization sample_enumeration
       foo_bar_session sample_table key_x).1 = "Foo, Bar".
Proof. split_and!; vm_compute; reflexivity. Qed.

(** ** C9: the timeout of the manager around [handle_input] *)

Section C9.
Context `{Editor}.

(** C9.  For every call of [handle_input], with any timeout argument and
    whatever the editor does: when the call returns, on whichever path -
    a timeout, the editor, an action, [ANY_INPUT] - the manager's timeout
    is the one it had before the call; the call returns whenever the pump
    delivers a timeout event; with a negative timeout argument the
    manager's timeout in force at each wait of the call is the one it had
    before the call, and with another argument it is the argument. *)
Theorem C9_handle_input_restores_timeout
    (ctxt : input_context) (timeout_arg : Z) (im : input_manager)
    (pending : list input_event) :
  (∀ h, handle_input ctxt timeout_arg im pending = Some h →
        get_timeout (h_manager h) = get_timeout im)
  ∧ (Exists (λ ev, type ev = timeout) pending →
     is_Some (handle_input ctxt timeout_arg im pending))
  ∧ (timeout_arg < 0 →
     ∀ h, handle_input ctxt timeout_arg im pending = Some h →
          h_waits h ≠ [] ∧ Forall (λ t, t = get_timeout im) (h_waits h))
  ∧ (0 ≤ timeout_arg →
     ∀ h, handle_input ctxt timeout_arg im pending = Some h →
          Forall (λ t, t = timeout_arg) (h_waits h)).
Proof.
  unfold handle_input. split_and!.
  - intros h. destruct (handle_input_loop _ _ _ _ _); [|done]. by intros [= <-].
  - intros Hex.
    destruct (handle_input_loop_returns
                (set_next_action (with_type error (next_action ctxt)) ctxt)
                timeout_arg
                (if 0 <=? timeout_arg then set_timeout timeout_arg im else im)
                pending [] Hex) as [h ->]. done.
  - intros Hneg h. rewrite (proj2 (Z.leb_gt 0 timeout_arg)) by done.
    destruct (handle_input_loop _ _ _ _ _) as [h'|] eqn:Hl; [|done].
    intros [= <-]. simpl.
    apply handle_input_loop_waits in Hl as (own & -> & Hne & Hall). done.
  - intros Hpos h. rewrite (proj2 (Z.leb_le 0 timeout_arg)) by done.
    destruct (handle_input_loop _ _ _ _ _) as [h'|] eqn:Hl; [|done].
    intros [= <-]. simpl.
    apply handle_input_loop_waits in Hl as (own & -> & Hne & Hall). done.
Qed.

End C9.

(** The help key opens the editor, which returns with the timeout 555;
    the call still hands the manager back with its timeout of 100.  A key
    bound to nothing followed by a timeout event returns [TIMEOUT]. *)
Lemma C9_witness :
  ∃ h,
    @handle_input sample_editor help_session (-1) sample_manager [key_help]
    = Some h
    ∧ h_result h = HELP_KEYBINDINGS
    ∧ get_timeout (h_manager h) = 100
    ∧ h_waits h = [100]
    ∧ is_Some (@handle_input sample_editor help_session 20 sample_manager
                 [key_w; wait_over]).
Proof.
  destruct (@handle_input sample_editor help_session (-1) sample_manager [key_help])
    as [h|] eqn:Hh; [|vm_compute in Hh; discriminate].
  exists h. split; [reflexivity|].
  pose proof (@C9_handle_input_restores_timeout sample_editor help_session (-1)
                sample_manager [key_help]) as (Hrestored & _).
  pose proof (Hrestored h Hh) as Htimeout.
  split; [vm_compute in Hh; by injection Hh as <-|].
  split; [exact Htimeout|].
  split; [vm_compute in Hh; by injection Hh as <-|].
  apply (proj1 (proj2 (@C9_handle_input_restores_timeout sample_editor
                         help_session 20 sample_manager [key_w; wait_over]))).
  apply Exists_cons. right. apply Exists_cons. left. reflexivity.
Defined.

(** ** C10: which operations mark an entry user-created *)

(** C10, amended.  An entry created by [add_input_for_action] - for an
    action id that had no entry in the context - is user-created and holds
    the added event; in a context other than ["default"] its name is the
    name of the global default entry of the action id when there is one
    and the action id itself when there is none, and in the ["default"]
    context its name is empty.  An entry created by a resolution is not
    user-created.  An entry created by loading a record is user-created
    exactly when the record says so: it takes the record's
    [is_user_created] member, and is not user-created without one. *)
Theorem C10_created_entries :
  (∀ (ac : t_action_contexts) action_id context event,
     lookup_action ac context action_id = None →
     lookup_action (add_input_for_action ac action_id context event)
                   context action_id
     = Some {| is_user_created := true;
               name :=
                 if decide (context = default_context_id) then translation_default
                 else match lookup_action ac default_context_id action_id with
                      | Some d => name d
                      | None => no_translation action_id
                      end;
               input_events := [event] |})
  ∧ (∀ (ac : t_action_contexts) action_id context c a entry,
       lookup_action ac c a = None →
       lookup_action (get_action_attributes ac action_id context).2 c a
       = Some entry →
       is_user_created entry = false)
  ∧ (∀ im is_user_preferences action im' c a entry,
       load_action im is_user_preferences action = Some im' →
       lookup_action (action_contexts im) c a = None →
       lookup_action (action_contexts im') c a = Some entry →
       is_user_created entry = default false (j_is_user_created action)).
Proof.
  split_and!.
  - intros. by apply add_input_for_action_new.
  - intros ac action_id context c a entry Hold Hnew.
    destruct (get_action_attributes_extends ac action_id context c a)
      as [Heq|(_ & _ & Hmat)].
    + congruence.
    + rewrite Hmat in Hnew. by injection Hnew as <-.
  - intros im u r im' c a entry Hload Hold Hnew.
    destruct (load_action_Some _ _ _ _ Hload) as [[_ ->]|[Hty [events Hev]]];
      [congruence|].
    destruct (load_action_spec im u r events Hty Hev)
      as (im2 & Hload2 & Hother & Hentry & _).
    rewrite Hload in Hload2. injection Hload2 as <-.
    destruct (decide ((c, a) = (default default_context_id (j_category r), j_id r)))
      as [[= -> ->]|Hne]; [|rewrite Hother in Hnew by done; congruence].
    rewrite Hold, Hnew in Hentry.
    destruct (record_applied u r events None) eqn:Hra.
    + injection Hentry as ->. unfold applied_entry, named_entry.
      destruct (j_is_user_created r); simpl; [done|].
      by destruct (j_name r); [destruct u|].
    + unfold record_applied in Hra. destruct u; [|done].
      unfold named_entry in Hentry. by destruct (j_name r).
Qed.

(** Adding a ["vehicle"] binding for ["QUIT"], which has a global entry
    and none in ["vehicle"], creates a user-created entry with the global
    name. *)
Lemma C10_witness :
  lookup_action sample_table "vehicle" "QUIT" = None
  ∧ lookup_action (add_input_for_action sample_table "QUIT" "vehicle" key_w)
      "vehicle" "QUIT"
    = Some {| is_user_created := true; name := to_translation "Quit";
              input_events := [key_w] |}.
Proof.
  assert (Hnew : lookup_action sample_table "vehicle" "QUIT" = None)
    by (vm_compute; reflexivity).
  split; [exact Hnew|].
  rewrite (proj1 C10_created_entries sample_table "QUIT" "vehicle" key_w Hnew).
  vm_compute. reflexivity.
Defined.

(** ["PAGE_UP"] has no global entry: the entry the add creates in
    ["vehicle"] is named by the action id, and no global entry exists for
    the name to come from.  Loading [user_created_record] creates the
    entry of ["BAZ"] in ["vehicle"] marked user-created. *)
Lemma C10_counterexample :
  lookup_action sample_table "vehicle" "PAGE_UP" = None
  ∧ lookup_action sample_table default_context_id "PAGE_UP" = None
  ∧ lookup_action (add_input_for_action sample_table "PAGE_UP" "vehicle" key_w)
      "vehicle" "PAGE_UP"
    = Some {| is_user_created := true; name := no_translation "PAGE_UP";
              input_events := [key_w] |}
  ∧ lookup_action (add_input_for_action sample_table "PAGE_UP" "vehicle" key_w)
      default_context_id "PAGE_UP" = None
  ∧ lookup_action (action_contexts sample_manager) "vehicle" "BAZ" = None
  ∧ (load_action sample_manager true user_created_record
       ≫= λ im', lookup_action (action_contexts im') "vehicle" "BAZ")
    = Some {| is_user_created := true; name := translation_default;
              input_events := [input_event_of ∅ 98 keyboard_char] |}.
Proof. split_and!; vm_compute; reflexivity. Qed.
